(** * Analytics service of the session tracker

    A shallow embedding of [server/src/services/analytics.services.js]:
    the tag-performance ranking ([analyzeTagPerformance]), the time-of-day
    bucketing ([analyzePeakTime]) and the orchestrator that combines both,
    asks the text-generation service for an insight and stores the result
    on the user's profile ([runAllAnalysesForUser]).

    Modelling conventions.
    - A rating is a finite number; a session document holds its exact
      value as a rational ([Qc]).  The averages of the aggregation
      pipeline are the store's and are taken exactly.  The arithmetic of
      [analyzePeakTime] itself is modelled twice: with exact rationals,
      for the properties that do not turn on rounding (block assignment,
      counts, errors, the orchestration), and in module [Binary64] as
      JavaScript evaluates it, with IEEE 754 doubles, for the properties
      that do (which block is selected).
    - A JavaScript number that may be [NaN] (the start hour of an invalid
      date) is an [option Z], with [None] standing for [NaN].
    - An awaited call on an external service either yields a value or
      rejects; whether it rejects is decided by the environment [Env].
    - A function that may throw returns [Error + A]. *)

From Stdlib Require Import QArith Qcanon SpecFloat.
From stdpp Require Import base numbers strings list sorting gmap.

Local Open Scope Qc_scope.

(** ** JavaScript values and built-ins *)

Module Js.

(** Thrown values, after the error taxonomy of the service. *)
Inductive Error :=
  | TypeError (message : string)
  | DataAccessError (message : string)
  | CollaboratorError (message : string)
  | PersistenceError (message : string).

Definition Result (A : Type) : Type := Error + A.

Definition ret {A} (a : A) : Result A := inr a.
Definition throw {A} (e : Error) : Result A := inl e.
Definition bind {A B} (r : Result A) (k : A → Result B) : Result B :=
  match r with
  | inl e => inl e
  | inr a => k a
  end.

(** [x >= n] and [x < n] on a number that may be [NaN]: every comparison
    with [NaN] is false. *)
Definition ge (x : option Z) (n : Z) : bool :=
  match x with
  | Some v => bool_decide (n ≤ v)%Z
  | None => false
  end.
Definition lt (x : option Z) (n : Z) : bool :=
  match x with
  | Some v => bool_decide (v < n)%Z
  | None => false
  end.

(** [Array.prototype.slice(start, end)]; [end_ = None] when the second
    argument is omitted. *)
Definition relativeIndex (len : Z) (i : Z) : Z :=
  if bool_decide (i < 0)%Z then Z.max (len + i) 0 else Z.min i len.
Definition slice {A} (start : Z) (end_ : option Z) (l : list A) : list A :=
  let len := Z.of_nat (length l) in
  let k := relativeIndex len start in
  let final := match end_ with
               | Some e => relativeIndex len e
               | None => len
               end in
  take (Z.to_nat (final - k)) (drop (Z.to_nat k) l).

(** [Array.prototype.join(sep)] on an array of strings. *)
Fixpoint join (sep : string) (l : list string) : string :=
  match l with
  | [] => ""
  | [x] => x
  | x :: rest => x +:+ sep +:+ join sep rest
  end.

(** [s || fallback]: the empty string is the only falsy string. *)
Definition or_else (s fallback : string) : string :=
  if bool_decide (s = "") then fallback else s.

(** [new Date(t).getHours()], for a timestamp in milliseconds since the
    epoch ([None]: missing or invalid date) and the offset of local time
    from UTC in force at that instant. *)
Definition msPerHour : Z := 3600000.
Definition getHours (tzOffsetMs : Z → Z) (t : option Z) : option Z :=
  match t with
  | Some ms => Some (((ms + tzOffsetMs ms) `div` msPerHour) `mod` 24)%Z
  | None => None
  end.

End Js.

Import Js.

Global Instance Result_ret : MRet Js.Result := @Js.ret.
Global Instance Result_bind : MBind Js.Result := λ A B k r, Js.bind r k.

(** ** Documents of the session collection *)

Record Interval := {
  startTime : option Z;
  endTime : option Z
}.

Record Session := {
  userId : string;
  status : string;
  rating : option Qc;
  tags : list string;
  intervals : list Interval
}.

(** The filter shared by both queries:
    [{ userId, status: "completed", rating: { $exists: true } }].
    A rating is a number when present ([null] ratings are not modelled). *)
Definition eligible (uid : string) (s : Session) : bool :=
  bool_decide (userId s = uid) && bool_decide (status s = "completed")
  && bool_decide (is_Some (rating s)).

(** ** Tag performance *)

(** One element of the [performance] array. *)
Record Performance := {
  _id : string;
  avgRating : Qc;
  count : nat
}.

(** [$sort: { avgRating: -1 }] *)
Definition byAvgDesc (p q : Performance) : Prop := avgRating q ≤ avgRating p.
Global Instance byAvgDesc_dec : RelDecision byAvgDesc :=
  λ p q, decide (avgRating q ≤ avgRating p).

Global Instance byAvgDesc_total : Total byAvgDesc.
Proof.
  intros p q. unfold byAvgDesc.
  destruct (Qclt_le_dec (avgRating p) (avgRating q));
    auto using Qclt_le_weak.
Qed.

Global Instance byAvgDesc_trans : Transitive byAvgDesc.
Proof. intros p q r Hpq Hqr. unfold byAvgDesc in *. by eapply Qcle_trans. Qed.

(** The store fixes neither the order in which [$group] emits its groups
    nor the relative order of documents with equal sort keys.  All the
    pipeline can rely on is that [$sort] returns its input, rearranged and
    sorted on the key; which rearrangement is the engine's choice. *)
Class SortStage := {
  sortDesc : list Performance → list Performance;
  sortDesc_perm : ∀ l, sortDesc l ≡ₚ l;
  sortDesc_sorted : ∀ l, Sorted byAvgDesc (sortDesc l)
}.

Module Aggregate.

(** [$match] on eligibility, then [$unwind: "$tags"]: one [(tag, rating)]
    document per tag occurrence; a session without tags yields none. *)
Definition unwind (uid : string) (docs : list Session) : list (string * Qc) :=
  s ← docs;
  match rating s with
  | Some r => if eligible uid s then (λ t, (t, r)) <$> tags s else []
  | None => []
  end.

Definition ratingsOf (tag : string) (pairs : list (string * Qc)) : list Qc :=
  snd <$> filter (λ p, p.1 = tag) pairs.

Definition sum (rs : list Qc) : Qc := foldr Qcplus 0 rs.

(** [$group: { _id: "$tags", avgRating: { $avg: "$rating" },
    count: { $sum: 1 } }] *)
Definition groupOf (pairs : list (string * Qc)) (tag : string) : Performance :=
  let rs := ratingsOf tag pairs in
  {| _id := tag;
     avgRating := sum rs / Qc_of_Z (Z.of_nat (length rs));
     count := length rs |}.
Definition group (pairs : list (string * Qc)) : list Performance :=
  groupOf pairs <$> remove_dups (fst <$> pairs).

(** [$match: { count: { $gt: 2 } }] *)
Definition significant (p : Performance) : Prop := (2 < count p)%nat.

Definition pipeline `{SortStage} (uid : string) (docs : list Session)
    : list Performance :=
  filter significant (sortDesc (group (unwind uid docs))).

End Aggregate.

(** ** Peak time *)

Module TimeBlock.

Record Stat := {
  totalRating : Qc;
  count : nat
}.

Definition Morning : string := "Morning (6am-12pm)".
Definition Afternoon : string := "Afternoon (12pm-5pm)".
Definition Evening : string := "Evening (5pm-10pm)".
Definition Night : string := "Night (10pm-6am)".

(** An object with string keys, enumerated by [for ... in] in insertion
    order. *)
Definition Ratings : Type := list (string * Stat).

Definition lookup (block : string) (tbr : Ratings) : option Stat :=
  snd <$> find (λ e, bool_decide (e.1 = block)) tbr.

(** [timeBlockRatings[block].totalRating += r;
     timeBlockRatings[block].count++];
    reading a property of [undefined] throws when the key is absent.
    Here the total is the exact sum; the sum the code computes is that
    of [Binary64.add]. *)
Fixpoint add (block : string) (r : Qc) (tbr : Ratings) : Result Ratings :=
  match tbr with
  | [] => throw (TypeError "Cannot read properties of undefined (reading 'totalRating')")
  | (k, a) :: rest =>
      if bool_decide (k = block)
      then mret ((k, {| totalRating := totalRating a + r; count := S (count a) |}) :: rest)
      else rest' ← add block r rest; mret ((k, a) :: rest')
  end.

(** The exact mean; the quotient the code computes is [Binary64.mean]. *)
Definition mean (a : Stat) : Qc := totalRating a / Qc_of_Z (Z.of_nat (count a)).

End TimeBlock.

Definition NotEnoughData : string := "Not enough data".

(** The documents returned by
    [Session.find(...).select("rating intervals")]. *)
Record Selected := {
  sel_rating : Qc;
  sel_intervals : list Interval
}.

Definition select (uid : string) (docs : list Session) : list Selected :=
  s ← docs;
  match rating s with
  | Some r => if eligible uid s
              then [ {| sel_rating := r; sel_intervals := intervals s |} ]
              else []
  | None => []
  end.

Definition timeBlockRatings0 : TimeBlock.Ratings :=
  [ (TimeBlock.Morning, {| TimeBlock.totalRating := 0; TimeBlock.count := 0 |});
    (TimeBlock.Afternoon, {| TimeBlock.totalRating := 0; TimeBlock.count := 0 |});
    (TimeBlock.Evening, {| TimeBlock.totalRating := 0; TimeBlock.count := 0 |});
    (TimeBlock.Night, {| TimeBlock.totalRating := 0; TimeBlock.count := 0 |}) ].

(** The cascade of conditionals choosing the block of a start hour. *)
Definition blockOfHour (startHour : option Z) : string :=
  if Js.ge startHour 6 && Js.lt startHour 12 then TimeBlock.Morning
  else if Js.ge startHour 12 && Js.lt startHour 17 then TimeBlock.Afternoon
  else if Js.ge startHour 17 && Js.lt startHour 22 then TimeBlock.Evening
  else TimeBlock.Night.

(** Thrown by [session.intervals[0].startTime] on an empty array. *)
Definition noFirstInterval : Error :=
  TypeError "Cannot read properties of undefined (reading 'startTime')".

Section PeakTime.

(** Offset of local time from UTC, in milliseconds, at a given instant. *)
Variable tzOffsetMs : Z → Z.

(** The callback of [sessions.forEach]. *)
Definition tally (tbr : TimeBlock.Ratings) (session : Selected)
    : Result TimeBlock.Ratings :=
  match sel_intervals session with
  | [] => throw noFirstInterval
  | first :: _ =>
      let startHour := Js.getHours tzOffsetMs (startTime first) in
      TimeBlock.add (blockOfHour startHour) (sel_rating session) tbr
  end.

Fixpoint forEach (sessions : list Selected) (tbr : TimeBlock.Ratings)
    : Result TimeBlock.Ratings :=
  match sessions with
  | [] => mret tbr
  | session :: rest => tbr' ← tally tbr session; forEach rest tbr'
  end.

(** One iteration of the [for (const block in timeBlockRatings)] loop on
    the pair [(peakProductivityTime, maxAvg)]. *)
Definition peakStep (acc : string * Qc) (entry : string * TimeBlock.Stat)
    : string * Qc :=
  let '(block, a) := entry in
  if bool_decide (0 < TimeBlock.count a)%nat then
    let avg := TimeBlock.mean a in
    if bool_decide (acc.2 < avg) then (block, avg) else acc
  else acc.

Definition pickPeak (tbr : TimeBlock.Ratings) : string :=
  (foldl peakStep (NotEnoughData, 0) tbr).1.

(** The computation of [analyzePeakTime] once the query has answered. *)
Definition peakTimeOf (sessions : list Selected) : Result string :=
  tbr ← forEach sessions timeBlockRatings0;
  mret (pickPeak tbr).

End PeakTime.

(** ** The environment of a run *)

Inductive Value :=
  | VString (s : string)
  | VStrings (l : list string)
  | VNumber (q : Qc)
  | VBool (b : bool).

(** A user document, flattened: dotted field path to value. *)
Abbreviation UserDoc := (gmap string Value).

Inductive LogEntry :=
  | Log (message : string)
  | LogError (message : string) (error : Error).

(** What a run can change: the user collection and the console. *)
Record Runtime := {
  users : gmap string UserDoc;
  console : list LogEntry
}.

(** What a run depends on and cannot change.  Each fault is the error with
    which the corresponding awaited call rejects, if it does
    ([aggregateFault] includes an identifier that [ObjectId] refuses);
    [generateText] stands for the chain [getGenerativeModel],
    [generateContent], [result.response], [response.text()], which takes
    the prompt and yields the text or throws. *)
Record Env := {
  sessionDocs : list Session;
  tzOffset : Z → Z;
  sortStage : SortStage;
  aggregateFault : option Error;
  findFault : option Error;
  generateText : string → Result string;
  updateFault : option Error
}.

Definition awaitFault (fault : option Error) : Result () :=
  match fault with
  | Some e => throw e
  | None => ret ()
  end.

(** The array [performance] of [analyzeTagPerformance] and its tags. *)
Definition ranked (env : Env) (uid : string) : list Performance :=
  @Aggregate.pipeline (sortStage env) uid (sessionDocs env).
Definition rankedTags (env : Env) (uid : string) : list string :=
  _id <$> ranked env uid.

Definition analyzeTagPerformance (env : Env) (uid : string)
    : Result (list string * list string) :=
  _ ← awaitFault (aggregateFault env);
  let performance := ranked env uid in
  let topPerformingTags := _id <$> Js.slice 0 (Some 3%Z) performance in
  let improvementAreaTags := reverse (_id <$> Js.slice (-3) None performance) in
  mret (topPerformingTags, improvementAreaTags).

(** The answer of [Session.find(...).select("rating intervals")]. *)
Definition eligibleSessions (env : Env) (uid : string) : list Selected :=
  select uid (sessionDocs env).

Definition analyzePeakTime (env : Env) (uid : string) : Result string :=
  _ ← awaitFault (findFault env);
  peakTimeOf (tzOffset env) (eligibleSessions env uid).

(** ** The orchestrator *)

(** Computations that may throw and may change the runtime. *)
Definition Async (A : Type) : Type := Runtime → Result A * Runtime.

Definition aret {A} (a : A) : Async A := λ σ, (inr a, σ).
Definition abind {A B} (m : Async A) (k : A → Async B) : Async B :=
  λ σ, match m σ with
       | (inl e, σ') => (inl e, σ')
       | (inr a, σ') => k a σ'
       end.
(** Awaiting a call that does not touch the runtime. *)
Definition await {A} (r : Result A) : Async A := λ σ, (r, σ).
(** [try { body } catch (error) { handler(error) }] *)
Definition tryCatch {A} (body : Async A) (handler : Error → Async A) : Async A :=
  λ σ, match body σ with
       | (inl e, σ') => handler e σ'
       | (inr a, σ') => (inr a, σ')
       end.

Global Instance Async_ret : MRet Async := @aret.
Global Instance Async_bind : MBind Async := λ A B k m, abind m k.

Definition console_log (message : string) : Async () :=
  λ σ, (inr (), {| users := users σ; console := console σ ++ [Log message] |}).
Definition console_error (message : string) (error : Error) : Async () :=
  λ σ, (inr (), {| users := users σ; console := console σ ++ [LogError message error] |}).

(** The [$set] operator on a flattened document. *)
Definition applySet (fields : list (string * Value)) (doc : UserDoc) : UserDoc :=
  foldl (λ d f, <[f.1 := f.2]> d) doc fields.

(** [User.findByIdAndUpdate(id, { $set: fields })], without upsert: an
    unknown identifier changes nothing; a rejected update changes
    nothing. *)
Definition findByIdAndUpdate (env : Env) (uid : string)
    (fields : list (string * Value)) : Async () :=
  λ σ, match updateFault env with
       | Some e => (inl e, σ)
       | None =>
           (inr (), {| users := alter (applySet fields) uid (users σ);
                       console := console σ |})
       end.

Definition nl : string := String (Ascii.ascii_of_nat 10) "".
Definition indent : string := "            ".

Definition renderPrompt (topPerformingTags improvementAreaTags : list string)
    (peakProductivityTime : string) : string :=
  nl +:+ indent +:+ "You are a friendly and encouraging productivity coach. Based on the following user data, provide a short, actionable insight (2-3 sentences)." +:+ nl
  +:+ indent +:+ nl
  +:+ indent +:+ "Data:" +:+ nl
  +:+ indent +:+ "- User's best performing task types (highest rated): "
      +:+ Js.or_else (Js.join ", " topPerformingTags) "None yet" +:+ nl
  +:+ indent +:+ "- Task types the user finds challenging (lowest rated): "
      +:+ Js.or_else (Js.join ", " improvementAreaTags) "None yet" +:+ nl
  +:+ indent +:+ "- The user's most productive time of day (highest rated sessions): "
      +:+ peakProductivityTime +:+ nl
  +:+ nl
  +:+ indent +:+ "Analyze this data and give the user one key insight. For example, if they do well on 'Coding' in the morning, encourage that. If they struggle with 'Meetings' in the afternoon, suggest a different approach. Be positive and helpful." +:+ nl
  +:+ "        ".

(** Everything up to, and excluding, the profile write. *)
Definition gatherInsights (env : Env) (uid : string)
    : Result (list (string * Value)) :=
  '(topPerformingTags, improvementAreaTags) ← analyzeTagPerformance env uid;
  peakProductivityTime ← analyzePeakTime env uid;
  let prompt := renderPrompt topPerformingTags improvementAreaTags peakProductivityTime in
  habitAnalysis ← generateText env prompt;
  mret [ ("aiInsights.topPerformingTags", VStrings topPerformingTags);
        ("aiInsights.improvementAreaTags", VStrings improvementAreaTags);
        ("aiInsights.peakProductivityTime", VString peakProductivityTime);
        ("aiInsights.habitAnalysis", VString habitAnalysis) ].

(** The body of the [try] block. *)
Definition runBody (env : Env) (uid : string) : Async () :=
  fields ← await (gatherInsights env uid);
  _ ← findByIdAndUpdate env uid fields;
  console_log ("Successfully ran GEN AI analysis for user " +:+ uid).

Definition runAllAnalysesForUser (env : Env) (uid : string) : Async () :=
  tryCatch (runBody env uid)
    (λ error, console_error ("Error running GEN AI analysis for user " +:+ uid +:+ ":") error).

(** ** Vocabulary of the statements *)

Definition blockLabels : list string :=
  [TimeBlock.Morning; TimeBlock.Afternoon; TimeBlock.Evening; TimeBlock.Night].

Section PeakTimeSpec.

Variable tzOffsetMs : Z → Z.

(** The start hour read by [analyzePeakTime] on a session that has a
    first interval. *)
Definition startHour (s : Selected) : option Z :=
  match sel_intervals s with
  | first :: _ => Js.getHours tzOffsetMs (startTime first)
  | [] => None
  end.

Definition inBlock (block : string) (s : Selected) : Prop :=
  blockOfHour (startHour s) = block.
Global Instance inBlock_dec block s : Decision (inBlock block s) :=
  decide (blockOfHour (startHour s) = block).

(** Sum and number of the ratings of the sessions that fall in a block. *)
Definition blockStat (block : string) (sessions : list Selected) : TimeBlock.Stat :=
  let rs := sel_rating <$> filter (inBlock block) sessions in
  {| TimeBlock.totalRating := Aggregate.sum rs; TimeBlock.count := length rs |}.

Definition populated (block : string) (sessions : list Selected) : Prop :=
  (0 < TimeBlock.count (blockStat block sessions))%nat.

Definition blockMean (block : string) (sessions : list Selected) : Qc :=
  TimeBlock.mean (blockStat block sessions).

End PeakTimeSpec.

Definition bump (r : Qc) (a : TimeBlock.Stat) : TimeBlock.Stat :=
  {| TimeBlock.totalRating := TimeBlock.totalRating a + r;
     TimeBlock.count := S (TimeBlock.count a) |}.

Definition absorb (rs : list Qc) (a : TimeBlock.Stat) : TimeBlock.Stat :=
  {| TimeBlock.totalRating := TimeBlock.totalRating a + Aggregate.sum rs;
     TimeBlock.count := TimeBlock.count a + length rs |}.

Definition hasSamples (a : TimeBlock.Stat) : Prop := (0 < TimeBlock.count a)%nat.

Section TagSpec.

Variables (uid : string) (docs : list Session).

(** The ratings a tag collects: one per occurrence of the tag on an
    eligible session. *)
Definition samples (tag : string) : list Qc :=
  Aggregate.ratingsOf tag (Aggregate.unwind uid docs).

Definition sampleCount (tag : string) : nat := length (samples tag).

Definition meanRating (tag : string) : Qc :=
  Aggregate.sum (samples tag) / Qc_of_Z (Z.of_nat (sampleCount tag)).

Definition qualifies (tag : string) : Prop := (2 < sampleCount tag)%nat.

End TagSpec.

(** The steps that can fail before the profile write, with the error each
    one raises. *)
Inductive FailsBeforeWrite (env : Env) (uid : string) : Error → Prop :=
  | AggregateRejects e :
      aggregateFault env = Some e →
      FailsBeforeWrite env uid e
  | FindRejects e tagLists :
      analyzeTagPerformance env uid = inr tagLists →
      findFault env = Some e →
      FailsBeforeWrite env uid e
  | FirstIntervalMissing tagLists s :
      analyzeTagPerformance env uid = inr tagLists →
      findFault env = None →
      s ∈ sessionDocs env → eligible uid s → intervals s = [] →
      FailsBeforeWrite env uid noFirstInterval
  | GenerationFails e top improvement peak :
      analyzeTagPerformance env uid = inr (top, improvement) →
      analyzePeakTime env uid = inr peak →
      generateText env (renderPrompt top improvement peak) = inl e →
      FailsBeforeWrite env uid e.

(** A failure of any step of the run. *)
Inductive StepFails (env : Env) (uid : string) : Error → Prop :=
  | BeforeWrite e : FailsBeforeWrite env uid e → StepFails env uid e
  | UpdateRejects e fields :
      gatherInsights env uid = inr fields →
      updateFault env = Some e →
      StepFails env uid e.

Definition errorLine (uid : string) (e : Error) : LogEntry :=
  LogError ("Error running GEN AI analysis for user " +:+ uid +:+ ":") e.
Definition successLine (uid : string) : LogEntry :=
  Log ("Successfully ran GEN AI analysis for user " +:+ uid).

Definition logged (entry : LogEntry) (σ : Runtime) : Runtime :=
  {| users := users σ; console := console σ ++ [entry] |}.

Definition writtenPaths : list string :=
  [ "aiInsights.topPerformingTags"; "aiInsights.improvementAreaTags";
    "aiInsights.peakProductivityTime"; "aiInsights.habitAnalysis" ].

(** The selection property in the specification's wording: the fallback
    label exactly when no block has a sample, and otherwise the label of
    the populated block whose mean exceeds that of every other populated
    block. *)
Definition strictMaxAmongPopulated (env : Env) (uid : string) : Prop :=
  let sessions := eligibleSessions env uid in
  let tz := tzOffset env in
  (analyzePeakTime env uid = inr NotEnoughData
   ↔ ∀ b, b ∈ blockLabels → ¬ populated tz b sessions)
  ∧ ∀ b, populated tz b sessions →
      (∀ b', b' ≠ b → populated tz b' sessions →
         blockMean tz b' sessions < blockMean tz b sessions) →
      analyzePeakTime env uid = inr b.

(** The determinism property in the specification's wording: the lists
    returned depend on the sessions only, whatever the store does with
    ties. *)
Definition orderFixedOnTies : Prop :=
  ∀ env1 env2 uid,
    sessionDocs env1 = sessionDocs env2 →
    aggregateFault env1 = aggregateFault env2 →
    analyzeTagPerformance env1 uid = analyzeTagPerformance env2 uid.

(** ** Sample histories *)

Definition utc : Z → Z := λ _, 0%Z.

(** A completed session of user ["u"], rated [r], started at hour [h] of
    the first day of the epoch. *)
Definition completed (tg : list string) (r : Z) (h : Z) : Session :=
  {| userId := "u"; status := "completed"; rating := Some (Qc_of_Z r);
     tags := tg;
     intervals := [ {| startTime := Some (h * Js.msPerHour)%Z;
                       endTime := Some ((h + 1) * Js.msPerHour)%Z |} ] |}.

(** A completed, rated session that was never started. *)
Definition neverStarted (r : Z) : Session :=
  {| userId := "u"; status := "completed"; rating := Some (Qc_of_Z r);
     tags := []; intervals := [] |}.

(** A sort that keeps tied groups in their incoming order, and one that
    meets them in the opposite order. *)
Definition mergeSortStage : SortStage :=
  {| sortDesc := merge_sort byAvgDesc;
     sortDesc_perm := merge_sort_Permutation byAvgDesc;
     sortDesc_sorted := Sorted_merge_sort byAvgDesc |}.

Definition reversedSortStage : SortStage :=
  {| sortDesc := λ l, merge_sort byAvgDesc (reverse l);
     sortDesc_perm := λ l,
       transitivity (merge_sort_Permutation byAvgDesc (reverse l))
                    (reverse_Permutation l);
     sortDesc_sorted := λ l, Sorted_merge_sort byAvgDesc (reverse l) |}.

(** An environment in which no external call fails. *)
Definition quiet (stage : SortStage) (docs : list Session) : Env :=
  {| sessionDocs := docs; tzOffset := utc; sortStage := stage;
     aggregateFault := None; findFault := None;
     generateText := λ _, inr "Keep it up!"; updateFault := None |}.

Definition fourSessions : Env :=
  quiet mergeSortStage
    [completed [] 5 8; completed [] 5 9; completed [] 3 14; completed [] 1 20].

Definition zeroRated : Env := quiet mergeSortStage [completed [] 0 8].

Definition unstarted : Env :=
  quiet mergeSortStage [completed [] 4 8; neverStarted 5].

(** One session at each of the four boundary hours. *)
Definition boundaryDocs : list Session :=
  [ completed [] 3 6; completed [] 4 12; completed [] 2 17; completed [] 5 22 ].

Definition codingDocs : list Session :=
  [ completed ["coding"] 5 8; completed ["coding"; "meetings"] 4 9;
    completed ["coding"] 5 14; completed ["meetings"] 2 20;
    completed ["meetings"] 3 15; completed ["email"] 1 16 ].

Definition codingHistory : Env := quiet mergeSortStage codingDocs.

(** Three sessions, each tagged both ways and rated alike: the two tags
    tie. *)
Definition tiedDocs : list Session :=
  [ completed ["reading"; "writing"] 5 8;
    completed ["reading"; "writing"] 5 9;
    completed ["reading"; "writing"] 5 10 ].

(** An environment whose text-generation service is down. *)
Definition collaboratorDown : Env :=
  {| sessionDocs := codingDocs; tzOffset := utc; sortStage := mergeSortStage;
     aggregateFault := None; findFault := None;
     generateText := λ _, inl (CollaboratorError "503 Service Unavailable");
     updateFault := None |}.

Definition profile0 : UserDoc :=
  {[ "email" := VString "u@example.org";
     "aiInsights.habitAnalysis" := VString "Earlier advice" ]}.

Definition runtime0 : Runtime :=
  {| users := {[ "u" := profile0 ]}; console := [] |}.

(** ** Vocabulary of the further properties *)

(** What [analyzePeakTime] consults of a session document: the fields of
    the filter, and the start of the first interval. *)
Definition peakView (s : Session)
    : string * string * option Qc * option (option Z) :=
  (userId s, status s, rating s, startTime <$> head (intervals s)).

(** The same history with sessions of another user, an abandoned session
    and an unrated one mixed in. *)
Definition crowdedDocs : list Session :=
  [ {| userId := "v"; status := "completed"; rating := Some (Qc_of_Z 1);
       tags := ["coding"]; intervals := [] |};
    completed ["coding"] 5 8; completed ["coding"; "meetings"] 4 9;
    {| userId := "u"; status := "abandoned"; rating := Some (Qc_of_Z 1);
       tags := ["coding"]; intervals := [] |};
    completed ["coding"] 5 14; completed ["meetings"] 2 20;
    {| userId := "u"; status := "completed"; rating := None;
       tags := ["meetings"]; intervals := [] |};
    completed ["meetings"] 3 15; completed ["email"] 1 16 ].

(** The sessions of [codingDocs] with end times dropped and a second
    interval added. *)
Definition reshaped (s : Session) : Session :=
  {| userId := userId s; status := status s; rating := rating s;
     tags := tags s;
     intervals :=
       match intervals s with
       | [] => []
       | first :: rest =>
           {| startTime := startTime first; endTime := None |}
           :: {| startTime := Some 0%Z; endTime := Some 1%Z |} :: rest
       end |}.

Global Instance qualifies_dec uid docs tag : Decision (qualifies uid docs tag) :=
  decide (2 < sampleCount uid docs tag)%nat.

(** The tags of the eligible sessions that reach the sample floor, each
    once. *)
Definition qualifyingTags (uid : string) (docs : list Session) : list string :=
  filter (qualifies uid docs) (remove_dups (Aggregate.unwind uid docs).*1).

(** [t1] is rated at least as high as [t2] on average. *)
Definition meanDesc (uid : string) (docs : list Session) (t1 t2 : string) : Prop :=
  meanRating uid docs t2 ≤ meanRating uid docs t1.

(** Three sessions carrying the same six tags, and three carrying two. *)
Definition sixTagDocs : list Session :=
  [ completed ["a"; "b"; "c"; "d"; "e"; "f"] 5 8;
    completed ["a"; "b"; "c"; "d"; "e"; "f"] 3 9;
    completed ["a"; "b"; "c"; "d"; "e"; "f"] 4 10 ].

(** ** The peak time in double arithmetic *)

(** [analyzePeakTime] as JavaScript evaluates it.  A number is an IEEE 754
    binary64 value ([spec_float] with a 53-bit significand, rounding to
    nearest, ties to even); [+=], [/] and [>] are the operations of the
    standard, so a running total depends on the order of the additions
    and a mean is the rounded quotient.  [count] only takes the values
    0, 1, 2, ..., which doubles hold exactly below 2^53, and stays a
    natural number. *)
Module Binary64.

Definition prec : Z := 53.
Definition emax : Z := 1024.

Definition zero : spec_float := S754_zero false.
Definition fromZ (z : Z) : spec_float := binary_normalize prec emax z 0 false.
Definition plus (x y : spec_float) : spec_float := SFadd prec emax x y.
Definition divide (x y : spec_float) : spec_float := SFdiv prec emax x y.
(** [x > y], [x < y] and [x <= y]; each is false when an operand is [NaN]. *)
Definition gt (x y : spec_float) : bool := SFltb y x.
Definition lt (x y : spec_float) : bool := SFltb x y.
Definition le (x y : spec_float) : bool := SFleb x y.

(** The double that a stored rating is: the correctly rounded quotient
    of its numerator by its denominator.  When both are below [2^53]
    this is the double nearest to the rational, so the double a literal
    such as [0.1] denotes; it is the rating itself when the rating is a
    double and a multiple of [2^-1023].  Ratings smaller than that in
    magnitude, which no rating scale reaches, are outside the model. *)
Definition toDouble (q : Qc) : spec_float :=
  divide (fromZ (Qnum q)) (fromZ (Zpos (Qden q))).

Record Stat := {
  totalRating : spec_float;
  count : nat
}.

Definition Ratings : Type := list (string * Stat).

Definition lookup (block : string) (tbr : Ratings) : option Stat :=
  snd <$> find (λ e, bool_decide (e.1 = block)) tbr.

(** [timeBlockRatings[block].totalRating += r;
     timeBlockRatings[block].count++] *)
Fixpoint add (block : string) (r : spec_float) (tbr : Ratings) : Result Ratings :=
  match tbr with
  | [] => throw (TypeError "Cannot read properties of undefined (reading 'totalRating')")
  | (k, a) :: rest =>
      if bool_decide (k = block)
      then mret ((k, {| totalRating := plus (totalRating a) r;
                        count := S (count a) |}) :: rest)
      else rest' ← add block r rest; mret ((k, a) :: rest')
  end.

(** [totalRating / count] *)
Definition mean (a : Stat) : spec_float :=
  divide (totalRating a) (fromZ (Z.of_nat (count a))).

Definition timeBlockRatings0 : Ratings :=
  [ (TimeBlock.Morning, {| totalRating := zero; count := 0 |});
    (TimeBlock.Afternoon, {| totalRating := zero; count := 0 |});
    (TimeBlock.Evening, {| totalRating := zero; count := 0 |});
    (TimeBlock.Night, {| totalRating := zero; count := 0 |}) ].

(** The callback of [sessions.forEach]. *)
Definition tally (tzOffsetMs : Z → Z) (tbr : Ratings) (session : Selected)
    : Result Ratings :=
  match sel_intervals session with
  | [] => throw noFirstInterval
  | first :: _ =>
      let startHour := Js.getHours tzOffsetMs (startTime first) in
      add (blockOfHour startHour) (toDouble (sel_rating session)) tbr
  end.

Fixpoint forEach (tzOffsetMs : Z → Z) (sessions : list Selected) (tbr : Ratings)
    : Result Ratings :=
  match sessions with
  | [] => mret tbr
  | session :: rest =>
      tbr' ← tally tzOffsetMs tbr session; forEach tzOffsetMs rest tbr'
  end.

(** One iteration of the [for (const block in timeBlockRatings)] loop on
    the pair [(peakProductivityTime, maxAvg)]. *)
Definition peakStep (acc : string * spec_float) (entry : string * Stat)
    : string * spec_float :=
  let '(block, a) := entry in
  if bool_decide (0 < count a)%nat then
    let avg := mean a in
    if gt avg acc.2 then (block, avg) else acc
  else acc.

Definition pickPeak (tbr : Ratings) : string :=
  (foldl peakStep (NotEnoughData, zero) tbr).1.

Definition peakTimeOf (tzOffsetMs : Z → Z) (sessions : list Selected)
    : Result string :=
  tbr ← forEach tzOffsetMs sessions timeBlockRatings0;
  mret (pickPeak tbr).

Definition analyzePeakTime (env : Env) (uid : string) : Result string :=
  _ ← awaitFault (findFault env);
  peakTimeOf (tzOffset env) (eligibleSessions env uid).

(** *** Vocabulary of the statements *)

(** The ratings of the sessions that fall in a block, as doubles, in the
    order of the documents. *)
Definition blockRatings (tz : Z → Z) (block : string) (sessions : list Selected)
    : list spec_float :=
  (λ s, toDouble (sel_rating s)) <$> filter (inBlock tz block) sessions.

(** What the loop leaves in a block: the running sum of these ratings,
    from left to right, and their number. *)
Definition blockStat (tz : Z → Z) (block : string) (sessions : list Selected)
    : Stat :=
  {| totalRating := foldl plus zero (blockRatings tz block sessions);
     count := length (blockRatings tz block sessions) |}.

Definition populated (tz : Z → Z) (block : string) (sessions : list Selected)
    : Prop :=
  (0 < count (blockStat tz block sessions))%nat.

(** The mean the code computes for a block. *)
Definition blockMean (tz : Z → Z) (block : string) (sessions : list Selected)
    : spec_float :=
  mean (blockStat tz block sessions).

Definition hasSamples (a : Stat) : Prop := (0 < count a)%nat.

Definition bump (r : spec_float) (a : Stat) : Stat :=
  {| totalRating := plus (totalRating a) r; count := S (count a) |}.

Definition absorb (rs : list spec_float) (a : Stat) : Stat :=
  {| totalRating := foldl plus (totalRating a) rs;
     count := count a + length rs |}.

Definition countSum (tbr : Ratings) : nat :=
  sum_list ((λ e, count e.2) <$> tbr).

End Binary64.

(** A completed session of user ["u"] with a fractional rating. *)
Definition rated (r : Qc) (h : Z) : Session :=
  {| userId := "u"; status := "completed"; rating := Some r; tags := [];
     intervals := [ {| startTime := Some (h * Js.msPerHour)%Z;
                       endTime := Some ((h + 1) * Js.msPerHour)%Z |} ] |}.

Definition tenths (n : Z) : Qc := Qc_of_Z n / Qc_of_Z 10.

(** Morning rated 0.2; afternoon rated 0.1, 0.2, 0.3 in that order. *)
Definition nearTie : list Session :=
  [ rated (tenths 2) 8; rated (tenths 1) 13; rated (tenths 2) 14;
    rated (tenths 3) 15 ].

(** The same sessions with the afternoon and the morning interleaved
    otherwise, the afternoon ratings keeping their order. *)
Definition nearTieShuffled : list Session :=
  [ rated (tenths 1) 13; rated (tenths 2) 14; rated (tenths 2) 8;
    rated (tenths 3) 15 ].

(** One block whose ratings 1.7, 0.9, -2.0, -0.6 cancel exactly but not
    in doubles. *)
Definition cancelling : list Session :=
  [ rated (tenths 17) 8; rated (tenths 9) 9; rated (tenths (-20)) 10;
    rated (tenths (-6)) 11 ].

(** ** Results on the peak time *)

Ltac unfold_result :=
  unfold mbind, mret, Result_bind, Result_ret, Js.bind, Js.ret, Js.throw in *.

Lemma blockOfHour_label h : blockOfHour h ∈ blockLabels.
Proof.
  unfold blockOfHour, blockLabels.
  repeat (case_match; [set_solver|]). set_solver.
Qed.

Lemma blockLabels_NoDup : NoDup blockLabels.
Proof. apply (bool_decide_unpack _). by vm_compute. Qed.

Lemma NotEnoughData_not_label : NotEnoughData ∉ blockLabels.
Proof. apply (bool_decide_unpack _). by vm_compute. Qed.

Lemma lookup_cons block k a (rest : TimeBlock.Ratings) :
  TimeBlock.lookup block ((k, a) :: rest)
  = if decide (k = block) then Some a else TimeBlock.lookup block rest.
Proof.
  unfold TimeBlock.lookup. simpl.
  destruct (decide (k = block)) as [->|Hne].
  - by rewrite bool_decide_eq_true_2.
  - by rewrite bool_decide_eq_false_2.
Qed.

(** [TimeBlock.add] succeeds on every key of the object, changes the entry
    of that key only and keeps the enumeration order. *)
Lemma add_present block r (tbr : TimeBlock.Ratings) :
  block ∈ tbr.*1 →
  ∃ tbr', TimeBlock.add block r tbr = inr tbr'
    ∧ tbr'.*1 = tbr.*1
    ∧ ∀ b, TimeBlock.lookup b tbr'
         = if decide (b = block) then bump r <$> TimeBlock.lookup b tbr
           else TimeBlock.lookup b tbr.
Proof.
  induction tbr as [|[k a] rest IH]; simpl; [by intros ?%elem_of_nil|].
  intros Hin. destruct (decide (k = block)) as [->|Hne].
  - rewrite bool_decide_eq_true_2 by done. eexists. split; [done|].
    split; [done|]. intros b. rewrite !lookup_cons.
    destruct (decide (block = b)) as [->|?].
    + by rewrite decide_True.
    + by rewrite decide_False.
  - rewrite bool_decide_eq_false_2 by done.
    destruct IH as (rest' & -> & Hkeys & Hlook); [set_solver|].
    unfold_result. eexists. split; [done|]. simpl. split; [by f_equal|].
    intros b. rewrite !lookup_cons, Hlook.
    destruct (decide (k = b)) as [->|?]; [|done].
    by rewrite decide_False.
Qed.

Lemma add_absent block r (tbr : TimeBlock.Ratings) :
  block ∉ tbr.*1 → ∃ e, TimeBlock.add block r tbr = inl e.
Proof.
  induction tbr as [|[k a] rest IH]; simpl; [by eexists|].
  intros Hin. rewrite bool_decide_eq_false_2 by set_solver.
  destruct IH as [e ->]; [set_solver|]. by eexists.
Qed.

Lemma absorb_nil a : absorb [] a = a.
Proof.
  destruct a as [t c]. unfold absorb; simpl.
  by rewrite Qcplus_0_r, Nat.add_0_r.
Qed.

Lemma absorb_cons r rs a : absorb (r :: rs) a = absorb rs (bump r a).
Proof.
  destruct a as [t c]. unfold absorb, bump; simpl.
  f_equal; [by rewrite Qcplus_assoc | lia].
Qed.

Lemma tally_startHour tz tbr s :
  sel_intervals s ≠ [] →
  tally tz tbr s = TimeBlock.add (blockOfHour (startHour tz s)) (sel_rating s) tbr.
Proof. unfold tally, startHour. by destruct (sel_intervals s). Qed.

(** On sessions that all have a first interval the loop runs to its end,
    and every block ends up with the sum and the number of the ratings of
    the sessions falling in it. *)
Lemma forEach_absorbs tz sessions tbr0 :
  tbr0.*1 = blockLabels →
  Forall (λ s, sel_intervals s ≠ []) sessions →
  ∃ tbr, forEach tz sessions tbr0 = inr tbr
    ∧ tbr.*1 = blockLabels
    ∧ ∀ b, TimeBlock.lookup b tbr
         = absorb (sel_rating <$> filter (inBlock tz b) sessions)
             <$> TimeBlock.lookup b tbr0.
Proof.
  intros Hkeys Hall. revert tbr0 Hkeys.
  induction Hall as [|s rest Hs _ IH]; intros tbr0 Hkeys; simpl.
  - exists tbr0. split; [done|]. split; [done|]. intros b.
    destruct (TimeBlock.lookup b tbr0); simpl; [|done].
    by rewrite absorb_nil.
  - rewrite tally_startHour by done.
    destruct (add_present (blockOfHour (startHour tz s)) (sel_rating s) tbr0)
      as (tbr1 & -> & Hkeys1 & Hlook1).
    { rewrite Hkeys. apply blockOfHour_label. }
    unfold_result.
    destruct (IH tbr1) as (tbr & -> & Hkeys2 & Hlook2); [congruence|].
    exists tbr. split; [done|]. split; [done|]. intros b.
    rewrite Hlook2, Hlook1, filter_cons. unfold inBlock at 2.
    destruct (decide (b = blockOfHour (startHour tz s))) as [->|Hne].
    + rewrite decide_True by done.
      destruct (TimeBlock.lookup _ tbr0); simpl; [|done].
      by rewrite absorb_cons.
    + by rewrite decide_False by congruence.
Qed.

(** A session without intervals makes the callback throw. *)
Lemma forEach_throws tz sessions tbr0 :
  tbr0.*1 = blockLabels →
  Exists (λ s, sel_intervals s = []) sessions →
  forEach tz sessions tbr0 = inl noFirstInterval.
Proof.
  intros Hkeys Hex. revert tbr0 Hkeys.
  induction Hex as [s rest Hs|s rest _ IH]; intros tbr0 Hkeys; simpl.
  - unfold tally. by rewrite Hs.
  - destruct (sel_intervals s) as [|first more] eqn:Hs.
    { unfold tally. by rewrite Hs. }
    rewrite tally_startHour by (by rewrite Hs).
    destruct (add_present (blockOfHour (startHour tz s)) (sel_rating s) tbr0)
      as (tbr1 & -> & Hkeys1 & _).
    { rewrite Hkeys. apply blockOfHour_label. }
    unfold_result. apply IH. congruence.
Qed.

Lemma lookup_timeBlockRatings0 b :
  b ∈ blockLabels →
  TimeBlock.lookup b timeBlockRatings0
  = Some {| TimeBlock.totalRating := 0; TimeBlock.count := 0 |}.
Proof.
  unfold blockLabels. rewrite !elem_of_cons, elem_of_nil.
  intros [->|[->|[->|[->|[]]]]]; reflexivity.
Qed.

Lemma forEach_blockStat tz sessions :
  Forall (λ s, sel_intervals s ≠ []) sessions →
  ∃ tbr, forEach tz sessions timeBlockRatings0 = inr tbr
    ∧ tbr.*1 = blockLabels
    ∧ ∀ b, b ∈ blockLabels →
        TimeBlock.lookup b tbr = Some (blockStat tz b sessions).
Proof.
  intros Hall.
  destruct (forEach_absorbs tz sessions timeBlockRatings0)
    as (tbr & Hrun & Hkeys & Hlook); [done..|].
  exists tbr. split; [done|]. split; [done|]. intros b Hb.
  rewrite Hlook, lookup_timeBlockRatings0 by done. simpl.
  unfold absorb, blockStat; simpl. by rewrite Qcplus_0_l.
Qed.

Lemma peakStep_snoc acc tbr e :
  foldl peakStep acc (tbr ++ [e]) = peakStep (foldl peakStep acc tbr) e.
Proof. by rewrite foldl_app. Qed.

(** Invariant of the selection loop, started from any pair [(p0, m0)]:
    the running maximum never drops below [m0] and bounds the mean of
    every populated block seen; either nothing beat [m0], or the label is
    that of the first entry reaching the final maximum. *)
Lemma peak_loop (tbr : TimeBlock.Ratings) p0 m0 :
  ∃ p m, foldl peakStep (p0, m0) tbr = (p, m)
    ∧ m0 ≤ m
    ∧ Forall (λ e, hasSamples e.2 → TimeBlock.mean e.2 ≤ m) tbr
    ∧ ((p = p0 ∧ m = m0)
       ∨ ∃ pre a post, tbr = pre ++ (p, a) :: post
           ∧ hasSamples a ∧ TimeBlock.mean a = m ∧ m0 < m
           ∧ Forall (λ e, hasSamples e.2 → TimeBlock.mean e.2 < m) pre).
Proof.
  induction tbr as [|[k a] tbr IH] using rev_ind.
  - exists p0, m0. simpl. split; [done|]. split; [apply Qcle_refl|].
    split; [constructor|by left].
  - destruct IH as (p & m & Hrun & Hle & Hbound & Hwho).
    rewrite peakStep_snoc, Hrun. unfold peakStep; simpl.
    destruct (decide (hasSamples a)) as [Ha|Ha].
    + unfold hasSamples in Ha. rewrite bool_decide_eq_true_2 by done.
      destruct (decide (m < TimeBlock.mean a)) as [Hlt|Hge].
      * rewrite bool_decide_eq_true_2 by done.
        exists k, (TimeBlock.mean a). split; [done|].
        split; [by eapply Qclt_le_weak, Qcle_lt_trans|].
        split.
        { apply Forall_app. split.
          - eapply Forall_impl; [exact Hbound|]. simpl. intros e He Hs.
            eapply Qcle_trans; [by apply He|by apply Qclt_le_weak].
          - constructor; [|constructor]. intros _. apply Qcle_refl. }
        right. exists tbr, a, []. split; [done|]. split; [done|].
        split; [done|]. split; [by eapply Qcle_lt_trans|].
        eapply Forall_impl; [exact Hbound|]. simpl. intros e He Hs.
        eapply Qcle_lt_trans; [by apply He|done].
      * rewrite bool_decide_eq_false_2 by done.
        exists p, m. split; [done|]. split; [done|].
        split.
        { apply Forall_app. split; [done|].
          constructor; [|constructor]. intros _. by apply Qcnot_lt_le. }
        destruct Hwho as [?|(pre & a' & post & -> & ? & ? & ? & ?)]; [by left|].
        right. exists pre, a', (post ++ [(k, a)]).
        by rewrite <-app_assoc.
    + unfold hasSamples in Ha. rewrite bool_decide_eq_false_2 by done.
      exists p, m. split; [done|]. split; [done|].
      split.
      { apply Forall_app. split; [done|].
        constructor; [|constructor]. simpl. by intros ?. }
      destruct Hwho as [?|(pre & a' & post & -> & ? & ? & ? & ?)]; [by left|].
      right. exists pre, a', (post ++ [(k, a)]).
      by rewrite <-app_assoc.
Qed.

Lemma elem_of_lookup k a (tbr : TimeBlock.Ratings) :
  NoDup tbr.*1 → (k, a) ∈ tbr → TimeBlock.lookup k tbr = Some a.
Proof.
  induction tbr as [|[k' a'] rest IH]; simpl; [by intros _ ?%elem_of_nil|].
  rewrite NoDup_cons, elem_of_cons, lookup_cons. intros [Hk Hnd] [Heq|Hin].
  - simplify_eq. by rewrite decide_True.
  - rewrite decide_False; [by apply IH|].
    intros ->. apply Hk. apply list_elem_of_fmap. by exists (k, a).
Qed.

(** What the selection loop returns on an object whose keys are distinct
    and differ from the fallback label. *)
Lemma pickPeak_cases (tbr : TimeBlock.Ratings) :
  NotEnoughData ∉ tbr.*1 →
  (pickPeak tbr = NotEnoughData
   ∧ Forall (λ e, hasSamples e.2 → TimeBlock.mean e.2 ≤ 0) tbr)
  ∨ (∃ pre a post, tbr = pre ++ (pickPeak tbr, a) :: post
       ∧ hasSamples a ∧ 0 < TimeBlock.mean a
       ∧ Forall (λ e, hasSamples e.2 → TimeBlock.mean e.2 ≤ TimeBlock.mean a) tbr
       ∧ Forall (λ e, hasSamples e.2 → TimeBlock.mean e.2 < TimeBlock.mean a) pre).
Proof.
  intros Hfresh. unfold pickPeak.
  destruct (peak_loop tbr NotEnoughData 0)
    as (p & m & -> & Hle & Hbound & [[-> ->]|Hwho]); simpl.
  - by left.
  - destruct Hwho as (pre & a & post & -> & Ha & <- & Hpos & Hpre).
    right. by exists pre, a, post.
Qed.

Lemma populated_label tz block sessions :
  populated tz block sessions → block ∈ blockLabels.
Proof.
  unfold populated, blockStat; simpl. rewrite length_fmap.
  destruct (filter (inBlock tz block) sessions) as [|s l] eqn:Hf; simpl; [lia|].
  intros _. assert (s ∈ filter (inBlock tz block) sessions) as Hs
    by (rewrite Hf; left).
  apply list_elem_of_filter in Hs as [<- _]. apply blockOfHour_label.
Qed.

(** The outcome of [peakTimeOf], in terms of the sessions: either no
    populated block has a positive mean and the fallback label is
    returned, or the label returned is that of the first block, in
    enumeration order, whose mean is the greatest. *)
Lemma peakTimeOf_cases tz sessions :
  Forall (λ s, sel_intervals s ≠ []) sessions →
  ∃ peak, peakTimeOf tz sessions = inr peak
    ∧ ((peak = NotEnoughData
        ∧ ∀ b, populated tz b sessions → blockMean tz b sessions ≤ 0)
       ∨ (∃ before after, blockLabels = before ++ peak :: after
            ∧ populated tz peak sessions
            ∧ 0 < blockMean tz peak sessions
            ∧ (∀ b, populated tz b sessions →
                 blockMean tz b sessions ≤ blockMean tz peak sessions)
            ∧ (∀ b, b ∈ before → populated tz b sessions →
                 blockMean tz b sessions < blockMean tz peak sessions))).
Proof.
  intros Hall. unfold peakTimeOf.
  destruct (forEach_blockStat tz sessions Hall) as (tbr & -> & Hkeys & Hlook).
  unfold_result. exists (pickPeak tbr). split; [done|].
  assert (NoDup tbr.*1) as Hnd by (rewrite Hkeys; apply blockLabels_NoDup).
  assert (∀ b a, (b, a) ∈ tbr → a = blockStat tz b sessions) as Hentry.
  { intros b a Hin. assert (b ∈ blockLabels) as Hb.
    { rewrite <-Hkeys. apply list_elem_of_fmap. by exists (b, a). }
    apply (elem_of_lookup _ _ _ Hnd) in Hin. rewrite Hlook in Hin by done.
    congruence. }
  assert (∀ b, populated tz b sessions → (b, blockStat tz b sessions) ∈ tbr)
    as Hfind.
  { intros b Hb%populated_label. pose proof Hb as Hb'.
    rewrite <-Hkeys in Hb'. apply list_elem_of_fmap in Hb' as ([b' a] & -> & Hin).
    simpl in *. by rewrite <-(Hentry _ _ Hin). }
  destruct (pickPeak_cases tbr) as [[-> Hnone]|Hsome].
  { rewrite Hkeys. apply NotEnoughData_not_label. }
  - left. split; [done|]. intros b Hb.
    rewrite Forall_forall in Hnone. by apply (Hnone _ (Hfind b Hb)).
  - destruct Hsome as (pre & a & post & Htbr & Ha & Hpos & Hmax & Hpre).
    right. assert (a = blockStat tz (pickPeak tbr) sessions) as ->.
    { apply Hentry. rewrite Htbr at 2. set_solver. }
    exists pre.*1, post.*1. split.
    { rewrite <-Hkeys. rewrite Htbr at 1. by rewrite fmap_app. }
    split; [done|]. split; [done|]. split.
    + intros b Hb. rewrite Forall_forall in Hmax.
      by apply (Hmax _ (Hfind b Hb)).
    + intros b Hin Hb. apply list_elem_of_fmap in Hin as ([b' a'] & -> & Hin).
      simpl in *. rewrite Forall_forall in Hpre.
      assert (a' = blockStat tz b' sessions) as ->.
      { apply Hentry. rewrite Htbr. set_solver. }
      by apply (Hpre _ Hin).
Qed.

(** ** The claims on the peak time *)

Lemma select_spec uid docs x :
  x ∈ select uid docs
  ↔ ∃ s, s ∈ docs ∧ eligible uid s
      ∧ rating s = Some (sel_rating x) ∧ intervals s = sel_intervals x.
Proof.
  unfold select. rewrite list_elem_of_bind. split.
  - intros (s & Hx & Hs). exists s. destruct (rating s) as [r|] eqn:Hr.
    + destruct (eligible uid s) eqn:He; [|by apply elem_of_nil in Hx].
      apply list_elem_of_singleton in Hx as ->. by simpl.
    + by apply elem_of_nil in Hx.
  - intros (s & Hs & He & Hr & Hi). exists s. split; [|done].
    apply Is_true_true in He. rewrite Hr, He.
    apply list_elem_of_singleton. destruct x; simpl in *. by rewrite Hi.
Qed.

Lemma analyzePeakTime_unfold env uid :
  findFault env = None →
  analyzePeakTime env uid
  = peakTimeOf (tzOffset env) (eligibleSessions env uid).
Proof. intros Hf. unfold analyzePeakTime. by rewrite Hf. Qed.

(** C1 in the specification's wording fails on a history whose only
    session is rated 0: Morning is populated, yet the fallback label is
    returned. *)
Lemma zero_rated_morning_is_not_reported :
  ¬ strictMaxAmongPopulated zeroRated "u".
Proof.
  intros [[Hnone _] _].
  assert (analyzePeakTime zeroRated "u" = inr NotEnoughData) as Hrun
    by by vm_compute.
  apply (Hnone Hrun TimeBlock.Morning).
  - unfold blockLabels. set_solver.
  - unfold populated. vm_compute. lia.
Qed.

Lemma first_interval_dichotomy (sessions : list Selected) :
  Forall (λ s, sel_intervals s ≠ []) sessions
  ∨ Exists (λ s, sel_intervals s = []) sessions.
Proof.
  induction sessions as [|s rest [IH|IH]].
  - left. constructor.
  - destruct (sel_intervals s) eqn:Hs.
    + right. by left.
    + left. constructor; [by rewrite Hs|done].
  - right. by right.
Qed.

Lemma eligible_rated uid s : eligible uid s → ∃ r, rating s = Some r.
Proof.
  unfold eligible. rewrite !andb_True, !bool_decide_spec.
  intros (_ & [r Hr]). by exists r.
Qed.

Lemma select_Forall uid docs :
  Forall (λ s, sel_intervals s ≠ []) (select uid docs)
  ↔ ∀ s, s ∈ docs → eligible uid s → intervals s ≠ [].
Proof.
  rewrite Forall_forall. split.
  - intros Hall s Hs He. destruct (eligible_rated _ _ He) as [r Hr].
    apply (Hall {| sel_rating := r; sel_intervals := intervals s |}).
    apply select_spec. by exists s.
  - intros Hall x (s & Hs & He & _ & <-)%select_spec. by apply Hall.
Qed.

Lemma select_Exists uid docs :
  Exists (λ s, sel_intervals s = []) (select uid docs)
  ↔ ∃ s, s ∈ docs ∧ eligible uid s ∧ intervals s = [].
Proof.
  rewrite Exists_exists. split.
  - intros (x & (s & Hs & He & _ & Hi)%select_spec & Hx).
    exists s. by rewrite Hi.
  - intros (s & Hs & He & Hi). destruct (eligible_rated _ _ He) as [r Hr].
    exists {| sel_rating := r; sel_intervals := intervals s |}.
    split; [|done]. apply select_spec. by exists s.
Qed.

(** C10.  [analyzePeakTime] reads the first interval of every eligible
    session unguarded: once the query has answered, it returns a label
    exactly when every eligible session has at least one interval, and it
    throws the [TypeError] of the failed read exactly when some eligible
    session has none. *)
Theorem analyzePeakTime_needs_first_interval env uid :
  findFault env = None →
  (analyzePeakTime env uid = inl noFirstInterval
   ↔ ∃ s, s ∈ sessionDocs env ∧ eligible uid s ∧ intervals s = [])
  ∧ ((∃ peak, analyzePeakTime env uid = inr peak)
     ↔ ∀ s, s ∈ sessionDocs env → eligible uid s → intervals s ≠ []).
Proof.
  intros Hfault. rewrite analyzePeakTime_unfold by done.
  rewrite <-select_Exists, <-select_Forall.
  unfold eligibleSessions.
  destruct (first_interval_dichotomy (select uid (sessionDocs env)))
    as [Hall|Hex].
  - destruct (peakTimeOf_cases (tzOffset env) _ Hall) as (peak & Hrun & _).
    rewrite Hrun. split.
    + split; [done|]. intros Hex. exfalso.
      apply Exists_exists in Hex as (x & Hx & Hnil).
      rewrite Forall_forall in Hall. by apply (Hall x).
    + split; [done|]. intros _. by exists peak.
  - unfold peakTimeOf. rewrite forEach_throws by done. unfold_result. split.
    + done.
    + split; [by intros [? ?]|]. intros Hall. exfalso.
      apply Exists_exists in Hex as (x & Hx & Hnil).
      rewrite Forall_forall in Hall. by apply (Hall x).
Qed.

Lemma analyzePeakTime_needs_first_interval_witness :
  analyzePeakTime unstarted "u" = inl noFirstInterval.
Proof.
  apply (analyzePeakTime_needs_first_interval unstarted "u").
  - reflexivity.
  - exists (neverStarted 5). split; [|by vm_compute].
    unfold unstarted, quiet; simpl. set_solver.
Defined.

(** C7.  The four blocks are half-open ranges of the start hour, so a
    session starting at hour 6, 12, 17 or 22 belongs to the block that
    begins there and not to the one before; and the loop credits every
    session to the block its start hour selects. *)
Theorem boundary_hours_open_their_block tz :
  (∀ h, blockOfHour (Some h) = TimeBlock.Morning ↔ (6 ≤ h < 12)%Z)
  ∧ (∀ h, blockOfHour (Some h) = TimeBlock.Afternoon ↔ (12 ≤ h < 17)%Z)
  ∧ (∀ h, blockOfHour (Some h) = TimeBlock.Evening ↔ (17 ≤ h < 22)%Z)
  ∧ (∀ h, blockOfHour (Some h) = TimeBlock.Night ↔ (h < 6 ∨ 22 ≤ h)%Z)
  ∧ (∀ s h block previous,
       (h, block, previous) ∈
         [ (6%Z, TimeBlock.Morning, TimeBlock.Night);
           (12%Z, TimeBlock.Afternoon, TimeBlock.Morning);
           (17%Z, TimeBlock.Evening, TimeBlock.Afternoon);
           (22%Z, TimeBlock.Night, TimeBlock.Evening) ] →
       startHour tz s = Some h →
       inBlock tz block s ∧ ¬ inBlock tz previous s)
  ∧ (∀ sessions,
       Forall (λ s, sel_intervals s ≠ []) sessions →
       ∃ tbr, forEach tz sessions timeBlockRatings0 = inr tbr
         ∧ ∀ b, b ∈ blockLabels →
             TimeBlock.lookup b tbr = Some (blockStat tz b sessions)).
Proof.
  assert (∀ h, blockOfHour (Some h) =
    if decide (6 ≤ h < 12)%Z then TimeBlock.Morning
    else if decide (12 ≤ h < 17)%Z then TimeBlock.Afternoon
    else if decide (17 ≤ h < 22)%Z then TimeBlock.Evening
    else TimeBlock.Night) as Hblock.
  { intros h. unfold blockOfHour, Js.ge, Js.lt.
    repeat case_bool_decide; simpl; repeat case_decide; done || lia. }
  assert (∀ h block lo hi, (lo, hi, block) ∈
      [ (6%Z, 12%Z, TimeBlock.Morning); (12%Z, 17%Z, TimeBlock.Afternoon);
        (17%Z, 22%Z, TimeBlock.Evening) ] →
    blockOfHour (Some h) = block ↔ (lo ≤ h < hi)%Z) as Hrange.
  { intros h block lo hi Hin. rewrite Hblock.
    rewrite !elem_of_cons, elem_of_nil in Hin.
    destruct Hin as [?|[?|[?|[]]]]; simplify_eq;
      repeat case_decide; split; (discriminate || lia || done). }
  split; [intros h; apply Hrange; set_solver|].
  split; [intros h; apply Hrange; set_solver|].
  split; [intros h; apply Hrange; set_solver|].
  split.
  { intros h. rewrite Hblock.
    repeat case_decide; split; (discriminate || lia || done). }
  split.
  - intros s h block previous Hin Hs. unfold inBlock. rewrite Hs.
    rewrite !elem_of_cons, elem_of_nil in Hin.
    destruct Hin as [?|[?|[?|[?|[]]]]]; by simplify_eq.
  - intros sessions Hall.
    destruct (forEach_blockStat tz sessions Hall) as (tbr & ? & _ & ?).
    by exists tbr.
Qed.

Example boundary_sessions_counted :
  match forEach utc (select "u" boundaryDocs) timeBlockRatings0 with
  | inr tbr => (λ e, (e.1, TimeBlock.count e.2)) <$> tbr
  | inl _ => []
  end
  = [ (TimeBlock.Morning, 1%nat); (TimeBlock.Afternoon, 1%nat);
      (TimeBlock.Evening, 1%nat); (TimeBlock.Night, 1%nat) ].
Proof. by vm_compute. Qed.

Example boundary_sessions_peak :
  analyzePeakTime (quiet mergeSortStage boundaryDocs) "u" = inr TimeBlock.Night.
Proof. by vm_compute. Qed.

Example four_sessions_peak :
  analyzePeakTime fourSessions "u" = inr TimeBlock.Morning.
Proof. by vm_compute. Qed.

(** ** Results on the tag ranking *)

Lemma StronglySorted_filter {A} (R : relation A) (P : A → Prop)
    `{∀ x, Decision (P x)} l :
  StronglySorted R l → StronglySorted R (filter P l).
Proof.
  induction 1 as [|x l Hl IH Hx]; [constructor|].
  rewrite filter_cons. case_decide; [|done].
  constructor; [done|]. rewrite Forall_forall in Hx |- *.
  intros y [_ Hy]%list_elem_of_filter. by apply Hx.
Qed.

Lemma slice_first3 {A} (l : list A) : Js.slice 0 (Some 3%Z) l = take 3 l.
Proof.
  unfold Js.slice, Js.relativeIndex.
  rewrite !bool_decide_eq_false_2 by lia.
  replace (Z.to_nat (Z.min 0 (Z.of_nat (length l)))) with 0%nat by lia.
  rewrite drop_0.
  destruct (decide (length l ≤ 3)%nat).
  - rewrite !take_ge; [done|lia..].
  - f_equal. lia.
Qed.

Lemma slice_last3 {A} (l : list A) :
  Js.slice (-3) None l = drop (length l - 3) l.
Proof.
  unfold Js.slice, Js.relativeIndex.
  rewrite bool_decide_eq_true_2 by lia.
  replace (Z.to_nat (Z.max (Z.of_nat (length l) + -3) 0))
    with (length l - 3)%nat by lia.
  apply take_ge. rewrite length_drop. lia.
Qed.

(** X11.  The sample count of a tag is the number of its occurrences on
    the eligible sessions: a session carrying several tags counts once
    for each of them, and a tag listed twice on a session counts twice. *)
Lemma sampleCount_sessions uid docs tag :
  sampleCount uid docs tag
  = sum_list ((λ s, if eligible uid s
                    then length (filter (λ t, t = tag) (tags s)) else 0%nat)
              <$> docs).
Proof.
  unfold sampleCount, samples, Aggregate.ratingsOf, Aggregate.unwind.
  rewrite length_fmap.
  induction docs as [|s rest IH]; [done|].
  rewrite bind_cons, filter_app, length_app, IH. simpl. f_equal.
  destruct (eligible uid s) eqn:He.
  - destruct (eligible_rated uid s) as [r ->]; [by rewrite He|].
    induction (tags s) as [|t ts IHt]; [done|].
    rewrite fmap_cons, !filter_cons. simpl.
    case_decide; simpl; by rewrite IHt.
  - by destruct (rating s).
Qed.

Section Pipeline.

Context (stage : SortStage) (uid : string) (docs : list Session).

Let pairs := Aggregate.unwind uid docs.
Let performance := @Aggregate.pipeline stage uid docs.

Lemma groupOf_id tag : _id (Aggregate.groupOf pairs tag) = tag.
Proof. done. Qed.

Lemma groupOf_stats tag :
  Aggregate.groupOf pairs tag
  = {| _id := tag; avgRating := meanRating uid docs tag;
       count := sampleCount uid docs tag |}.
Proof.
  unfold Aggregate.groupOf, meanRating, sampleCount, samples. done.
Qed.

Lemma group_ids : _id <$> Aggregate.group pairs = remove_dups pairs.*1.
Proof.
  unfold Aggregate.group. rewrite <-list_fmap_compose.
  rewrite <-(list_fmap_id (remove_dups pairs.*1)) at 2.
  by apply list_fmap_ext.
Qed.

Lemma qualifies_occurs tag : qualifies uid docs tag → tag ∈ pairs.*1.
Proof.
  unfold qualifies, sampleCount, samples, Aggregate.ratingsOf.
  rewrite length_fmap. fold pairs.
  destruct (filter (λ p, p.1 = tag) pairs) as [|p l] eqn:Hf; simpl; [lia|].
  intros _. assert (p ∈ filter (λ p, p.1 = tag) pairs) as Hp
    by (rewrite Hf; left).
  apply list_elem_of_filter in Hp as [<- Hp].
  by apply list_elem_of_fmap_2.
Qed.

(** The array [performance] holds exactly the groups of the qualifying
    tags, each once, in descending order of mean rating. *)
Lemma performance_perm :
  performance ≡ₚ filter Aggregate.significant (Aggregate.group pairs).
Proof.
  unfold performance, Aggregate.pipeline. by rewrite sortDesc_perm.
Qed.

Lemma performance_entry p :
  p ∈ performance
  ↔ ∃ tag, qualifies uid docs tag
      ∧ p = {| _id := tag; avgRating := meanRating uid docs tag;
               count := sampleCount uid docs tag |}.
Proof.
  rewrite performance_perm, list_elem_of_filter.
  unfold Aggregate.group. rewrite list_elem_of_fmap. split.
  - intros (Hsig & tag & -> & Htag). exists tag.
    by rewrite <-groupOf_stats.
  - intros (tag & Hq & ->). rewrite <-groupOf_stats.
    split; [done|]. exists tag. split; [done|].
    by apply elem_of_remove_dups, qualifies_occurs.
Qed.

Lemma performance_sorted : StronglySorted byAvgDesc performance.
Proof.
  apply StronglySorted_filter, Sorted_StronglySorted; [apply _|].
  apply sortDesc_sorted.
Qed.

Lemma performance_ids_NoDup : NoDup (_id <$> performance).
Proof.
  rewrite performance_perm.
  eapply NoDup_fmap_2_strong.
  - intros p q [_ Hp]%list_elem_of_filter [_ Hq]%list_elem_of_filter.
    unfold Aggregate.group in Hp, Hq.
    apply list_elem_of_fmap in Hp as (t & -> & _).
    apply list_elem_of_fmap in Hq as (t' & -> & _).
    rewrite !groupOf_id. by intros ->.
  - apply NoDup_filter. eapply NoDup_fmap_1. rewrite group_ids.
    apply NoDup_remove_dups.
Qed.

End Pipeline.

Lemma analyzeTagPerformance_unfold env uid :
  aggregateFault env = None →
  analyzeTagPerformance env uid
  = inr (take 3 (rankedTags env uid),
         reverse (drop (length (rankedTags env uid) - 3) (rankedTags env uid))).
Proof.
  intros Hfault. unfold analyzeTagPerformance. rewrite Hfault.
  unfold_result; simpl.
  rewrite slice_first3, slice_last3, fmap_take, fmap_drop.
  unfold rankedTags. by rewrite length_fmap.
Qed.

Lemma last_drop {A} (l : list A) m :
  (m < length l)%nat → last (drop m l) = last l.
Proof.
  intros Hm. rewrite !last_lookup, lookup_drop, length_drop. f_equal. lia.
Qed.

Lemma sorted_head_greatest ranked first :
  StronglySorted byAvgDesc ranked → head ranked = Some first →
  ∀ q, q ∈ ranked → avgRating q ≤ avgRating first.
Proof.
  intros Hsorted Hhead q Hq.
  destruct ranked as [|p rest]; simplify_eq/=.
  apply StronglySorted_inv in Hsorted as [_ Hall].
  apply elem_of_cons in Hq as [->|Hq]; [apply Qcle_refl|].
  rewrite Forall_forall in Hall. by apply Hall.
Qed.

Lemma sorted_last_least ranked final :
  StronglySorted byAvgDesc ranked → last ranked = Some final →
  ∀ q, q ∈ ranked → avgRating final ≤ avgRating q.
Proof.
  intros Hsorted [init ->]%last_Some q Hq.
  apply elem_of_app in Hq as [Hq|Hq%list_elem_of_singleton].
  - eapply (StronglySorted_app_1_elem_of byAvgDesc); [done..|]. by left.
  - subst. apply Qcle_refl.
Qed.

(** ** The claims on the tag ranking *)

(** C5.  When the aggregation answers, every tag returned in
    [topPerformingTags] or [improvementAreaTags] has more than two
    samples. *)
Theorem ranked_tags_have_three_samples env uid :
  aggregateFault env = None →
  ∃ top improvement,
    analyzeTagPerformance env uid = inr (top, improvement)
    ∧ ∀ tag, tag ∈ top ∨ tag ∈ improvement →
        (2 < sampleCount uid (sessionDocs env) tag)%nat.
Proof.
  intros Hfault. rewrite analyzeTagPerformance_unfold by done.
  eexists _, _. split; [done|]. intros tag Htag.
  assert (tag ∈ rankedTags env uid) as Hin.
  { destruct Htag as [Htag|Htag].
    - by eapply subseteq_take.
    - rewrite elem_of_reverse in Htag. by eapply subseteq_drop. }
  apply list_elem_of_fmap in Hin as (p & -> & Hp).
  apply performance_entry in Hp as (tag & Hq & ->). exact Hq.
Qed.

(** C6.  With [ranked] the groups of the qualifying tags in descending
    order of mean rating and [n] their number, [topPerformingTags] is the
    first [min 3 n] tag names and [improvementAreaTags] the last
    [min 3 n] tag names reversed; the head of the former has the greatest
    mean, the head of the latter the least, and both are empty when no tag
    qualifies. *)
Theorem top_and_bottom_three env uid :
  aggregateFault env = None →
  StronglySorted byAvgDesc (ranked env uid)
  ∧ (∀ p, p ∈ ranked env uid
       ↔ ∃ tag, qualifies uid (sessionDocs env) tag
           ∧ p = {| _id := tag;
                    avgRating := meanRating uid (sessionDocs env) tag;
                    count := sampleCount uid (sessionDocs env) tag |})
  ∧ NoDup (rankedTags env uid)
  ∧ ∃ top improvement,
      analyzeTagPerformance env uid = inr (top, improvement)
      ∧ top = take (min 3 (length (rankedTags env uid))) (rankedTags env uid)
      ∧ improvement
        = reverse (drop (length (rankedTags env uid)
                         - min 3 (length (rankedTags env uid)))
                     (rankedTags env uid))
      ∧ (∀ best, head top = Some best →
           qualifies uid (sessionDocs env) best
           ∧ ∀ tag, qualifies uid (sessionDocs env) tag →
               meanRating uid (sessionDocs env) tag
               ≤ meanRating uid (sessionDocs env) best)
      ∧ (∀ worst, head improvement = Some worst →
           qualifies uid (sessionDocs env) worst
           ∧ ∀ tag, qualifies uid (sessionDocs env) tag →
               meanRating uid (sessionDocs env) worst
               ≤ meanRating uid (sessionDocs env) tag)
      ∧ (length (rankedTags env uid) = 0%nat → top = [] ∧ improvement = []).
Proof.
  intros Hfault. unfold rankedTags.
  set (docs := sessionDocs env).
  assert (StronglySorted byAvgDesc (ranked env uid)) as Hsorted
    by apply performance_sorted.
  pose proof (performance_entry (sortStage env) uid docs) as Hentry.
  change (Aggregate.pipeline uid docs) with (ranked env uid) in Hentry.
  set (perf := ranked env uid) in *.
  set (names := _id <$> perf). set (n := length names).
  split; [done|]. split; [done|].
  split; [apply performance_ids_NoDup|].
  rewrite analyzeTagPerformance_unfold by done.
  change (rankedTags env uid) with names. fold n.
  eexists _, _. split; [done|].
  assert (take 3 names = take (3 `min` n) names) as Htake.
  { destruct (decide (n ≤ 3)%nat).
    - rewrite !take_ge; [done|unfold n in *; lia..].
    - f_equal. lia. }
  split; [done|]. split; [do 2 f_equal; lia|].
  assert (∀ p tag, p ∈ perf → _id p = tag →
    qualifies uid docs tag ∧ avgRating p = meanRating uid docs tag) as Hstat.
  { intros p tag (tag' & Hq & ->)%Hentry <-. done. }
  assert (∀ tag, qualifies uid docs tag →
    ∃ p, p ∈ perf ∧ avgRating p = meanRating uid docs tag) as Hfind.
  { intros tag Hq. eexists. split; [apply Hentry; by exists tag|done]. }
  split; [|split].
  - intros best Hbest.
    assert (head names = Some best) as Hhead.
    { destruct names; simplify_eq/=; done. }
    unfold names in Hhead. destruct perf as [|p rest] eqn:Hr; simplify_eq/=.
    destruct (Hstat p (_id p)) as [Hq Hmean]; [left|done|].
    split; [done|]. intros tag (q & Hin & <-)%Hfind. rewrite <-Hmean.
    by eapply (sorted_head_greatest (p :: rest)).
  - intros worst Hworst. rewrite head_reverse in Hworst.
    assert (last names = Some worst) as Hlast.
    { destruct (decide (n = 0)%nat) as [Hn|Hn].
      - apply length_zero_iff_nil in Hn. rewrite Hn in Hworst.
        by rewrite drop_nil in Hworst.
      - rewrite last_drop in Hworst; [done|]. fold n. lia. }
    unfold names in Hlast. rewrite fmap_last in Hlast.
    destruct (last perf) as [p|] eqn:Hp; simplify_eq/=.
    assert (p ∈ perf) as Hin by by apply last_Some_elem_of.
    destruct (Hstat p (_id p)) as [Hq Hmean]; [done..|].
    split; [done|]. intros tag (q & Hin' & <-)%Hfind. rewrite <-Hmean.
    by eapply sorted_last_least.
  - intros Hn. apply length_zero_iff_nil in Hn. rewrite Hn.
    by rewrite drop_nil.
Qed.

Lemma ranked_tags_have_three_samples_witness :
  ∃ top improvement,
    analyzeTagPerformance codingHistory "u" = inr (top, improvement)
    ∧ ∀ tag, tag ∈ top ∨ tag ∈ improvement →
        (2 < sampleCount "u" (sessionDocs codingHistory) tag)%nat.
Proof.
  apply (ranked_tags_have_three_samples codingHistory "u"). reflexivity.
Defined.

Lemma top_and_bottom_three_witness :
  ∃ top improvement,
    analyzeTagPerformance codingHistory "u" = inr (top, improvement)
    ∧ top = take (min 3 (length (rankedTags codingHistory "u")))
              (rankedTags codingHistory "u")
    ∧ improvement
      = reverse (drop (length (rankedTags codingHistory "u")
                       - min 3 (length (rankedTags codingHistory "u")))
                   (rankedTags codingHistory "u"))
    ∧ (∀ best, head top = Some best →
         qualifies "u" codingDocs best
         ∧ ∀ tag, qualifies "u" codingDocs tag →
             meanRating "u" codingDocs tag ≤ meanRating "u" codingDocs best)
    ∧ (∀ worst, head improvement = Some worst →
         qualifies "u" codingDocs worst
         ∧ ∀ tag, qualifies "u" codingDocs tag →
             meanRating "u" codingDocs worst ≤ meanRating "u" codingDocs tag)
    ∧ (length (rankedTags codingHistory "u") = 0%nat →
       top = [] ∧ improvement = []).
Proof.
  apply (top_and_bottom_three codingHistory "u"). reflexivity.
Defined.

Example codingHistory_ranking :
  analyzeTagPerformance codingHistory "u"
  = inr (["coding"; "meetings"], ["meetings"; "coding"]).
Proof. by vm_compute. Qed.

(** C8 in the specification's wording fails: on three sessions whose two
    tags tie, two stores that both sort on the mean rating return the
    tags in different orders. *)
Lemma tied_tags_order_depends_on_store : ¬ orderFixedOnTies.
Proof.
  intros Hfixed.
  specialize (Hfixed (quiet mergeSortStage tiedDocs)
                     (quiet reversedSortStage tiedDocs) "u" eq_refl eq_refl).
  vm_compute in Hfixed. discriminate Hfixed.
Qed.

Lemma ranked_perm env uid :
  ranked env uid
  ≡ₚ filter Aggregate.significant
       (Aggregate.group (Aggregate.unwind uid (sessionDocs env))).
Proof. apply performance_perm. Qed.

(** C8, in the form the code satisfies.  When no two qualifying tags have the same mean
    rating, the lists returned by [analyzeTagPerformance] depend on the
    sessions only: any two stores return the same lists. *)
Theorem ranking_fixed_when_means_differ env1 env2 uid :
  sessionDocs env1 = sessionDocs env2 →
  aggregateFault env1 = aggregateFault env2 →
  (∀ t1 t2,
     qualifies uid (sessionDocs env1) t1 →
     qualifies uid (sessionDocs env1) t2 →
     meanRating uid (sessionDocs env1) t1 = meanRating uid (sessionDocs env1) t2 →
     t1 = t2) →
  analyzeTagPerformance env1 uid = analyzeTagPerformance env2 uid.
Proof.
  intros Hdocs Hfault Hdistinct.
  assert (ranked env1 uid = ranked env2 uid) as Hranked.
  { apply (StronglySorted_unique_strong byAvgDesc).
    - intros p q Hp Hq Hpq Hqp.
      apply performance_entry in Hp as (t1 & Hq1 & ->).
      apply performance_entry in Hq as (t2 & Hq2 & ->).
      rewrite <-Hdocs in *. unfold byAvgDesc in Hpq, Hqp; simpl in *.
      assert (t1 = t2) as ->; [|done].
      apply Hdistinct; [done..|]. by apply Qcle_antisym.
    - apply performance_sorted.
    - apply performance_sorted.
    - by rewrite !ranked_perm, Hdocs. }
  unfold analyzeTagPerformance. by rewrite Hfault, Hranked.
Qed.

Lemma ranking_fixed_when_means_differ_witness :
  analyzeTagPerformance (quiet mergeSortStage codingDocs) "u"
  = analyzeTagPerformance (quiet reversedSortStage codingDocs) "u".
Proof.
  apply (ranking_fixed_when_means_differ
           (quiet mergeSortStage codingDocs)
           (quiet reversedSortStage codingDocs) "u").
  - reflexivity.
  - reflexivity.
  - simpl.
    assert (∀ t, qualifies "u" codingDocs t → t = "coding" ∨ t = "meetings")
      as Hwhich.
    { intros t Hq. pose proof (qualifies_occurs _ _ _ Hq) as Hin.
      assert ((Aggregate.unwind "u" codingDocs).*1
              = ["coding"; "coding"; "meetings"; "coding"; "meetings";
                 "meetings"; "email"]) as Htags by reflexivity.
      rewrite Htags in Hin. rewrite !elem_of_cons, elem_of_nil in Hin.
      destruct Hin as [?|[?|[?|[?|[?|[?|[->|[]]]]]]]]; auto.
      exfalso. unfold qualifies in Hq. vm_compute in Hq. lia. }
    intros t1 t2 [->| ->]%Hwhich [->| ->]%Hwhich Hmean;
      try done; exfalso; apply (f_equal this) in Hmean;
      vm_compute in Hmean; discriminate Hmean.
Defined.

(** ** Results on the orchestrator *)

Ltac unfold_async :=
  unfold runAllAnalysesForUser, tryCatch, runBody, findByIdAndUpdate,
    console_log, console_error, await, logged, errorLine, successLine,
    mbind, mret, Async_bind, Async_ret, abind, aret in *.

Lemma gatherInsights_fails env uid e :
  gatherInsights env uid = inl e ↔ FailsBeforeWrite env uid e.
Proof.
  unfold gatherInsights. split.
  - destruct (analyzeTagPerformance env uid) as [e1|[top imp]] eqn:Htags;
      unfold_result.
    { intros [= ->]. unfold analyzeTagPerformance in Htags.
      destruct (aggregateFault env) eqn:Hf; unfold_result; simplify_eq/=.
      by apply AggregateRejects. }
    destruct (analyzePeakTime env uid) as [e2|peak] eqn:Hpeak.
    { intros [= ->]. destruct (findFault env) as [e3|] eqn:Hf.
      - unfold analyzePeakTime in Hpeak. rewrite Hf in Hpeak.
        unfold_result; simplify_eq/=. by eapply FindRejects.
      - rewrite analyzePeakTime_unfold in Hpeak by done.
        destruct (first_interval_dichotomy (eligibleSessions env uid))
          as [Hall|Hex].
        + destruct (peakTimeOf_cases (tzOffset env) _ Hall) as (? & ? & _).
          congruence.
        + unfold peakTimeOf in Hpeak. rewrite forEach_throws in Hpeak by done.
          unfold_result; simplify_eq/=.
          apply select_Exists in Hex as (s & ? & ? & ?).
          by eapply FirstIntervalMissing. }
    destruct (generateText env _) as [e3|habit] eqn:Hgen; [|done].
    intros [= ->]. by eapply GenerationFails.
  - intros [e' Hf|e' lists Htags Hf|lists s Htags Hf Hs He Hi
            |e' top imp peak Htags Hpeak Hgen].
    + unfold analyzeTagPerformance. by rewrite Hf.
    + rewrite Htags. unfold_result. destruct lists.
      unfold analyzePeakTime. by rewrite Hf.
    + rewrite Htags. unfold_result. destruct lists.
      rewrite analyzePeakTime_unfold by done. unfold peakTimeOf.
      rewrite forEach_throws; [done..|]. apply select_Exists. by exists s.
    + rewrite Htags. unfold_result. rewrite Hpeak. by rewrite Hgen.
Qed.

Lemma gatherInsights_fields env uid top imp peak habit :
  analyzeTagPerformance env uid = inr (top, imp) →
  analyzePeakTime env uid = inr peak →
  generateText env (renderPrompt top imp peak) = inr habit →
  gatherInsights env uid
  = inr [ ("aiInsights.topPerformingTags", VStrings top);
          ("aiInsights.improvementAreaTags", VStrings imp);
          ("aiInsights.peakProductivityTime", VString peak);
          ("aiInsights.habitAnalysis", VString habit) ].
Proof.
  intros Htags Hpeak Hgen. unfold gatherInsights.
  rewrite Htags. unfold_result. by rewrite Hpeak, Hgen.
Qed.

(** The three ways a run can go. *)
Lemma run_before_write env uid e σ :
  FailsBeforeWrite env uid e →
  runAllAnalysesForUser env uid σ = (inr (), logged (errorLine uid e) σ).
Proof.
  intros Hfail%gatherInsights_fails. unfold_async. by rewrite Hfail.
Qed.

Lemma run_update_rejected env uid e fields σ :
  gatherInsights env uid = inr fields → updateFault env = Some e →
  runAllAnalysesForUser env uid σ = (inr (), logged (errorLine uid e) σ).
Proof. intros Hg Hu. unfold_async. by rewrite Hg, Hu. Qed.

Lemma run_success env uid fields σ :
  gatherInsights env uid = inr fields → updateFault env = None →
  runAllAnalysesForUser env uid σ
  = (inr (), logged (successLine uid)
               {| users := alter (applySet fields) uid (users σ);
                  console := console σ |}).
Proof. intros Hg Hu. unfold_async. by rewrite Hg, Hu. Qed.

(** ** The claims on the orchestrator *)

(** C3.  Whatever the environment, [runAllAnalysesForUser] returns
    normally; when a step fails (a query, the read of a first interval,
    the text generation or the profile update) the error is logged on a
    line naming the user and nothing else happens; otherwise the run
    succeeds. *)
Theorem runAllAnalysesForUser_swallows_every_failure env uid σ :
  (∃ σ', runAllAnalysesForUser env uid σ = (inr (), σ'))
  ∧ (∀ e, StepFails env uid e →
       runAllAnalysesForUser env uid σ = (inr (), logged (errorLine uid e) σ))
  ∧ ((∃ e, StepFails env uid e)
     ∨ ∃ fields, gatherInsights env uid = inr fields
         ∧ updateFault env = None).
Proof.
  assert (∀ e, StepFails env uid e →
    runAllAnalysesForUser env uid σ = (inr (), logged (errorLine uid e) σ))
    as Hlogged.
  { intros e [e' Hfail|e' fields Hg Hu].
    - by apply run_before_write.
    - by eapply run_update_rejected. }
  assert ((∃ e, StepFails env uid e)
     ∨ ∃ fields, gatherInsights env uid = inr fields
         ∧ updateFault env = None) as Hcases.
  { destruct (gatherInsights env uid) as [e|fields] eqn:Hg.
    - left. exists e. by apply BeforeWrite, gatherInsights_fails.
    - destruct (updateFault env) as [e|] eqn:Hu.
      + left. exists e. by eapply UpdateRejects.
      + right. by exists fields. }
  split; [|done].
  destruct Hcases as [[e Hfail]|(fields & Hg & Hu)].
  - eexists. by apply Hlogged.
  - eexists. by apply run_success.
Qed.

Lemma runAllAnalysesForUser_swallows_every_failure_witness :
  runAllAnalysesForUser collaboratorDown "u" runtime0
  = (inr (),
     {| users := users runtime0;
        console :=
          [ LogError "Error running GEN AI analysis for user u:"
              (CollaboratorError "503 Service Unavailable") ] |}).
Proof.
  apply (runAllAnalysesForUser_swallows_every_failure
           collaboratorDown "u" runtime0).
  apply BeforeWrite.
  apply (GenerationFails collaboratorDown "u" _
           ["coding"; "meetings"] ["meetings"; "coding"] TimeBlock.Morning).
  - by vm_compute.
  - by vm_compute.
  - reflexivity.
Defined.

(** C4.  When a step before the profile write fails, in particular when
    the text-generation call throws, the user collection after the run
    is the one before it. *)
Theorem failure_before_write_keeps_profiles env uid e σ :
  FailsBeforeWrite env uid e →
  users (runAllAnalysesForUser env uid σ).2 = users σ.
Proof. intros Hfail. by rewrite (run_before_write env uid e). Qed.

Lemma failure_before_write_keeps_profiles_witness :
  users (runAllAnalysesForUser collaboratorDown "u" runtime0).2
  = users runtime0.
Proof.
  apply (failure_before_write_keeps_profiles collaboratorDown "u"
           (CollaboratorError "503 Service Unavailable")).
  apply (GenerationFails collaboratorDown "u" _
           ["coding"; "meetings"] ["meetings"; "coding"] TimeBlock.Morning).
  - by vm_compute.
  - by vm_compute.
  - reflexivity.
Defined.

(** C9.  On a successful run the update sets the four [aiInsights]
    fields of the user's document to values fixed by the environment
    alone, leaves every other field of that document and every other
    document as it was, and creates no document for an unknown user. *)
Theorem profile_write_sets_four_fields env uid top improvement peak habit σ :
  analyzeTagPerformance env uid = inr (top, improvement) →
  analyzePeakTime env uid = inr peak →
  generateText env (renderPrompt top improvement peak) = inr habit →
  updateFault env = None →
  ∃ σ', runAllAnalysesForUser env uid σ = (inr (), σ')
    ∧ console σ' = console σ ++ [successLine uid]
    ∧ (∀ other, other ≠ uid → users σ' !! other = users σ !! other)
    ∧ (users σ !! uid = None → users σ' !! uid = None)
    ∧ ∀ doc, users σ !! uid = Some doc →
        ∃ doc', users σ' !! uid = Some doc'
          ∧ doc' !! "aiInsights.topPerformingTags" = Some (VStrings top)
          ∧ doc' !! "aiInsights.improvementAreaTags"
            = Some (VStrings improvement)
          ∧ doc' !! "aiInsights.peakProductivityTime" = Some (VString peak)
          ∧ doc' !! "aiInsights.habitAnalysis" = Some (VString habit)
          ∧ ∀ path, path ∉ writtenPaths → doc' !! path = doc !! path.
Proof.
  intros Htags Hpeak Hgen Hupdate.
  pose proof (gatherInsights_fields _ _ _ _ _ _ Htags Hpeak Hgen) as Hg.
  eexists. split; [by apply run_success|]. simpl.
  split; [done|]. split; [|split].
  - intros other Hne. by rewrite lookup_alter_ne.
  - intros Hnone. by rewrite lookup_alter_eq, Hnone.
  - intros doc Hdoc. eexists. rewrite lookup_alter_eq, Hdoc. simpl.
    split; [done|].
    split; [by simplify_map_eq|]. split; [by simplify_map_eq|].
    split; [by simplify_map_eq|]. split; [by simplify_map_eq|].
    intros path Hpath. unfold writtenPaths in Hpath.
    rewrite !not_elem_of_cons in Hpath.
    destruct Hpath as (? & ? & ? & ? & _). by simplify_map_eq.
Qed.

Lemma profile_write_sets_four_fields_witness :
  ∃ σ', runAllAnalysesForUser codingHistory "u" runtime0 = (inr (), σ')
    ∧ console σ' = console runtime0 ++ [successLine "u"]
    ∧ (∀ other, other ≠ "u" → users σ' !! other = users runtime0 !! other)
    ∧ (users runtime0 !! "u" = None → users σ' !! "u" = None)
    ∧ ∀ doc, users runtime0 !! "u" = Some doc →
        ∃ doc', users σ' !! "u" = Some doc'
          ∧ doc' !! "aiInsights.topPerformingTags"
            = Some (VStrings ["coding"; "meetings"])
          ∧ doc' !! "aiInsights.improvementAreaTags"
            = Some (VStrings ["meetings"; "coding"])
          ∧ doc' !! "aiInsights.peakProductivityTime"
            = Some (VString TimeBlock.Morning)
          ∧ doc' !! "aiInsights.habitAnalysis" = Some (VString "Keep it up!")
          ∧ ∀ path, path ∉ writtenPaths → doc' !! path = doc !! path.
Proof.
  apply (profile_write_sets_four_fields codingHistory "u").
  - by vm_compute.
  - by vm_compute.
  - reflexivity.
  - reflexivity.
Defined.

(** * Further properties of the analytics service *)

(** ** The peak time *)

Lemma sum_cons r rs : Aggregate.sum (r :: rs) = r + Aggregate.sum rs.
Proof. reflexivity. Qed.

Lemma sum_positive rs :
  rs ≠ [] → Forall (λ r, 0 < r) rs → 0 < Aggregate.sum rs.
Proof.
  intros Hne Hall. destruct Hall as [|r rs Hr Hrs]; [done|].
  rewrite sum_cons. apply Qcplus_pos_nonneg; [done|]. clear Hne Hr.
  induction Hrs as [|r' rs Hr' _ IH]; [done|].
  rewrite sum_cons. apply Qcplus_nonneg_nonneg; [by apply Qclt_le_weak|done].
Qed.

Lemma session_populates_its_block tz sessions s :
  s ∈ sessions → populated tz (blockOfHour (startHour tz s)) sessions.
Proof.
  intros Hs. unfold populated, blockStat; simpl. rewrite length_fmap.
  assert (s ∈ filter (inBlock tz (blockOfHour (startHour tz s))) sessions)
    as Hin by by apply list_elem_of_filter.
  destruct (filter _ sessions); [by apply elem_of_nil in Hin|simpl; lia].
Qed.

Lemma positive_ratings_positive_mean tz sessions block :
  Forall (λ s, 0 < sel_rating s) sessions →
  populated tz block sessions → 0 < blockMean tz block sessions.
Proof.
  intros Hall Hpop. unfold blockMean, TimeBlock.mean, Qcdiv.
  unfold populated in Hpop. apply Qcmult_pos_pos.
  - unfold blockStat in *; simpl in *. apply sum_positive.
    + intros Hnil. rewrite Hnil in Hpop. simpl in Hpop. lia.
    + apply Forall_fmap. rewrite Forall_forall in Hall |- *.
      intros s [_ Hs]%list_elem_of_filter. by apply Hall.
  - apply Qcinv_pos. rewrite <-Z2Qc_inj_0.
    apply (proj1 (Z2Qc_inj_lt 0 _)). lia.
Qed.

(** X2.  When all eligible ratings are above 0 (the query answers and
    every eligible session has a first interval), [analyzePeakTime]
    returns ["Not enough data"] exactly when the user has no eligible
    session, and otherwise the label of a block that holds a session. *)
Theorem positive_ratings_always_report_a_block env uid :
  findFault env = None →
  Forall (λ s, sel_intervals s ≠ []) (eligibleSessions env uid) →
  Forall (λ s, 0 < sel_rating s) (eligibleSessions env uid) →
  ∃ peak, analyzePeakTime env uid = inr peak
    ∧ (peak = NotEnoughData ↔ eligibleSessions env uid = [])
    ∧ (peak ≠ NotEnoughData →
       peak ∈ blockLabels
       ∧ populated (tzOffset env) peak (eligibleSessions env uid)).
Proof.
  intros Hfault Hall Hpos. rewrite analyzePeakTime_unfold by done.
  set (sessions := eligibleSessions env uid) in *.
  destruct (peakTimeOf_cases (tzOffset env) sessions Hall)
    as (peak & Hrun & Hcases). exists peak. split; [done|].
  destruct Hcases as [[-> Hnone]|(before & after & Hsplit & Hpop & _)].
  - split; [|done]. split; [|done]. intros _.
    destruct sessions as [|s rest] eqn:Hs; [done|]. exfalso.
    assert (s ∈ s :: rest) as Hin by left.
    apply (session_populates_its_block (tzOffset env)) in Hin.
    eapply Qclt_not_le; [|by apply Hnone].
    by apply positive_ratings_positive_mean.
  - assert (peak ∈ blockLabels) as Hlabel by (rewrite Hsplit; set_solver).
    assert (peak ≠ NotEnoughData) as Hne.
    { intros ->. by apply NotEnoughData_not_label. }
    split; [|done]. split; [done|]. intros Hnil. rewrite Hnil in Hpop.
    unfold populated in Hpop. simpl in Hpop. lia.
Qed.

Lemma positive_ratings_always_report_a_block_witness :
  ∃ peak, analyzePeakTime codingHistory "u" = inr peak
    ∧ (peak = NotEnoughData ↔ eligibleSessions codingHistory "u" = [])
    ∧ (peak ≠ NotEnoughData →
       peak ∈ blockLabels
       ∧ populated utc peak (eligibleSessions codingHistory "u")).
Proof.
  apply (positive_ratings_always_report_a_block codingHistory "u").
  - reflexivity.
  - repeat constructor; discriminate.
  - repeat constructor.
Defined.

Lemma sum_Permutation rs1 rs2 :
  rs1 ≡ₚ rs2 → Aggregate.sum rs1 = Aggregate.sum rs2.
Proof.
  induction 1 as [|r rs1 rs2 _ IH|r1 r2 rs|rs1 rs2 rs3 _ IH1 _ IH2].
  - done.
  - by rewrite !sum_cons, IH.
  - rewrite !sum_cons. ring.
  - congruence.
Qed.

Lemma select_filter uid docs :
  select uid (filter (λ s, eligible uid s) docs) = select uid docs.
Proof.
  unfold select. induction docs as [|s rest IH]; [done|].
  rewrite filter_cons, bind_cons. case_decide as He.
  - by rewrite bind_cons, IH.
  - rewrite IH. apply Is_true_false in He. rewrite He.
    by destruct (rating s).
Qed.

Lemma unwind_filter uid docs :
  Aggregate.unwind uid (filter (λ s, eligible uid s) docs)
  = Aggregate.unwind uid docs.
Proof.
  unfold Aggregate.unwind. induction docs as [|s rest IH]; [done|].
  rewrite filter_cons, bind_cons. case_decide as He.
  - by rewrite bind_cons, IH.
  - rewrite IH. apply Is_true_false in He. rewrite He.
    by destruct (rating s).
Qed.

(** X4.  Sessions that fail the filter (another user's, not completed,
    or unrated) have no influence: on two collections with the same
    eligible sessions both analyzers return the same result. *)
Theorem analyzers_ignore_ineligible_sessions env1 env2 uid :
  filter (λ s, eligible uid s) (sessionDocs env1)
  = filter (λ s, eligible uid s) (sessionDocs env2) →
  tzOffset env1 = tzOffset env2 →
  sortStage env1 = sortStage env2 →
  aggregateFault env1 = aggregateFault env2 →
  findFault env1 = findFault env2 →
  analyzeTagPerformance env1 uid = analyzeTagPerformance env2 uid
  ∧ analyzePeakTime env1 uid = analyzePeakTime env2 uid.
Proof.
  intros Hdocs Htz Hstage Hagg Hfind. split.
  - unfold analyzeTagPerformance, ranked, Aggregate.pipeline.
    rewrite Hagg, Hstage.
    by rewrite <-(unwind_filter uid (sessionDocs env1)), Hdocs, unwind_filter.
  - unfold analyzePeakTime, eligibleSessions. rewrite Hfind, Htz.
    by rewrite <-(select_filter uid (sessionDocs env1)), Hdocs, select_filter.
Qed.

Lemma analyzers_ignore_ineligible_sessions_witness :
  analyzeTagPerformance (quiet mergeSortStage crowdedDocs) "u"
  = analyzeTagPerformance codingHistory "u"
  ∧ analyzePeakTime (quiet mergeSortStage crowdedDocs) "u"
    = analyzePeakTime codingHistory "u".
Proof.
  apply (analyzers_ignore_ineligible_sessions
           (quiet mergeSortStage crowdedDocs) codingHistory "u");
    reflexivity.
Defined.

(** X5.  The outcomes of [analyzePeakTime]: the error of the rejected
    query, the [TypeError] of a missing first interval, or one of five
    strings, the four block labels and ["Not enough data"].  No other
    error is ever thrown. *)
Theorem analyzePeakTime_outcomes env uid :
  (∃ e, findFault env = Some e ∧ analyzePeakTime env uid = inl e)
  ∨ (findFault env = None
     ∧ analyzePeakTime env uid = inl noFirstInterval
     ∧ ∃ s, s ∈ sessionDocs env ∧ eligible uid s ∧ intervals s = [])
  ∨ (∃ peak, analyzePeakTime env uid = inr peak
       ∧ peak ∈ NotEnoughData :: blockLabels).
Proof.
  destruct (findFault env) as [e|] eqn:Hfault.
  { left. exists e. split; [done|]. unfold analyzePeakTime. by rewrite Hfault. }
  right. rewrite analyzePeakTime_unfold by done.
  destruct (first_interval_dichotomy (eligibleSessions env uid)) as [Hall|Hex].
  - right.
    destruct (peakTimeOf_cases (tzOffset env) _ Hall) as (peak & Hrun & Hcases).
    exists peak. split; [done|].
    destruct Hcases as [[-> _]|(before & after & Hsplit & _)]; [left|].
    right. rewrite Hsplit. set_solver.
  - left. split; [done|]. split.
    + unfold peakTimeOf. by rewrite forEach_throws.
    + by apply select_Exists.
Qed.

Lemma select_views uid docs1 docs2 :
  Forall2 (λ s1 s2, peakView s1 = peakView s2) docs1 docs2 →
  Forall2 (λ x y, sel_rating x = sel_rating y
             ∧ startTime <$> head (sel_intervals x)
               = startTime <$> head (sel_intervals y))
    (select uid docs1) (select uid docs2).
Proof.
  unfold select. induction 1 as [|s1 s2 rest1 rest2 Hview _ IH]; [constructor|].
  rewrite !bind_cons. apply Forall2_app; [|done].
  unfold peakView in Hview. injection Hview as Hu Hs Hr Hstart.
  unfold eligible. rewrite Hu, Hs, Hr.
  destruct (rating s2); [|constructor].
  case_match; [|constructor]. by repeat constructor.
Qed.

Lemma forEach_views tz sessions1 sessions2 tbr :
  Forall2 (λ x y, sel_rating x = sel_rating y
             ∧ startTime <$> head (sel_intervals x)
               = startTime <$> head (sel_intervals y))
    sessions1 sessions2 →
  forEach tz sessions1 tbr = forEach tz sessions2 tbr.
Proof.
  intros Hall. revert tbr.
  induction Hall as [|x y rest1 rest2 [Hr Hstart] _ IH]; intros tbr; [done|].
  simpl. assert (tally tz tbr x = tally tz tbr y) as ->.
  { unfold tally. rewrite Hr.
    destruct (sel_intervals x), (sel_intervals y); simplify_eq/=;
      [done|congruence]. }
  destruct (tally tz tbr y); unfold_result; [done|]. apply IH.
Qed.

(** X6.  Of a session's intervals [analyzePeakTime] consults the start of
    the first one only: end times and later intervals do not change its
    result. *)
Theorem analyzePeakTime_reads_first_start_only env1 env2 uid :
  Forall2 (λ s1 s2, peakView s1 = peakView s2)
    (sessionDocs env1) (sessionDocs env2) →
  tzOffset env1 = tzOffset env2 →
  findFault env1 = findFault env2 →
  analyzePeakTime env1 uid = analyzePeakTime env2 uid.
Proof.
  intros Hviews Htz Hfault. unfold analyzePeakTime, peakTimeOf.
  rewrite Hfault, Htz. destruct (findFault env2); [done|].
  unfold_result; simpl. unfold eligibleSessions.
  by rewrite (forEach_views (tzOffset env2) _ _ timeBlockRatings0
                (select_views uid _ _ Hviews)).
Qed.

Lemma analyzePeakTime_reads_first_start_only_witness :
  analyzePeakTime codingHistory "u"
  = analyzePeakTime (quiet mergeSortStage (reshaped <$> codingDocs)) "u".
Proof.
  apply (analyzePeakTime_reads_first_start_only
           codingHistory (quiet mergeSortStage (reshaped <$> codingDocs)) "u").
  - repeat constructor.
  - reflexivity.
  - reflexivity.
Defined.

(** ** The tag ranking *)

Lemma rankedTags_qualifying env uid :
  rankedTags env uid ≡ₚ qualifyingTags uid (sessionDocs env).
Proof.
  apply NoDup_Permutation.
  - apply performance_ids_NoDup.
  - apply NoDup_filter, NoDup_remove_dups.
  - intros tag. unfold rankedTags, qualifyingTags.
    rewrite list_elem_of_fmap, list_elem_of_filter, elem_of_remove_dups. split.
    + intros (p & -> & (t & Hq & ->)%performance_entry). simpl.
      split; [done|]. by apply qualifies_occurs.
    + intros [Hq _]. eexists. split; [|apply performance_entry; by exists tag].
      done.
Qed.

Lemma ranked_of_tags env uid :
  ranked env uid
  = (λ tag, {| _id := tag;
               avgRating := meanRating uid (sessionDocs env) tag;
               count := sampleCount uid (sessionDocs env) tag |})
    <$> rankedTags env uid.
Proof.
  unfold rankedTags.
  assert (Forall (λ p, p = {| _id := _id p;
                              avgRating := meanRating uid (sessionDocs env) (_id p);
                              count := sampleCount uid (sessionDocs env) (_id p) |})
            (ranked env uid)) as Hall.
  { apply Forall_forall. by intros p (t & _ & ->)%performance_entry. }
  induction Hall as [|p rest Hp _ IH]; [done|].
  rewrite !fmap_cons. by rewrite <-Hp, <-IH.
Qed.

Lemma StronglySorted_fmap_inv {A B} (f : A → B) (R1 : relation A)
    (R2 : relation B) l :
  (∀ x y, R2 (f x) (f y) → R1 x y) →
  StronglySorted R2 (f <$> l) → StronglySorted R1 l.
Proof.
  intros Hrel. induction l as [|x l IH]; [constructor|].
  rewrite fmap_cons. intros [Hl Hx]%StronglySorted_inv.
  constructor; [by apply IH|].
  rewrite Forall_fmap in Hx. eapply Forall_impl; [exact Hx|]. simpl. auto.
Qed.

Lemma rankedTags_sorted env uid :
  StronglySorted (meanDesc uid (sessionDocs env)) (rankedTags env uid).
Proof.
  eapply (StronglySorted_fmap_inv _ _ byAvgDesc); [|rewrite <-ranked_of_tags].
  - by intros t1 t2.
  - apply performance_sorted.
Qed.

Lemma StronglySorted_take {A} (R : relation A) n l :
  StronglySorted R l → StronglySorted R (take n l).
Proof.
  rewrite <-(take_drop n l) at 1. apply StronglySorted_app_1_l.
Qed.

Lemma StronglySorted_drop {A} (R : relation A) n l :
  StronglySorted R l → StronglySorted R (drop n l).
Proof.
  rewrite <-(take_drop n l) at 1. apply StronglySorted_app_1_r.
Qed.

Lemma StronglySorted_reverse {A} (R : relation A) `{!Transitive R} l :
  StronglySorted R l → StronglySorted (flip R) (reverse l).
Proof.
  intros Hl. apply Sorted_StronglySorted; [apply _|].
  by apply Sorted_reverse, StronglySorted_Sorted.
Qed.

Global Instance meanDesc_trans uid docs : Transitive (meanDesc uid docs).
Proof. intros t1 t2 t3 H12 H23. unfold meanDesc in *. by eapply Qcle_trans. Qed.

(** X7.  Both lists have [min 3 n] entries, [n] being the number of
    qualifying tags, and neither repeats a tag. *)
Theorem tag_lists_short_and_repeat_free env uid :
  aggregateFault env = None →
  ∃ top improvement,
    analyzeTagPerformance env uid = inr (top, improvement)
    ∧ length top = min 3 (length (qualifyingTags uid (sessionDocs env)))
    ∧ length improvement = min 3 (length (qualifyingTags uid (sessionDocs env)))
    ∧ NoDup top ∧ NoDup improvement.
Proof.
  intros Hfault. rewrite analyzeTagPerformance_unfold by done.
  eexists _, _. split; [done|].
  rewrite <-(rankedTags_qualifying env uid).
  pose proof (performance_ids_NoDup (sortStage env) uid (sessionDocs env))
    as Hnd. change (NoDup (rankedTags env uid)) in Hnd.
  rewrite length_reverse, length_take, length_drop.
  split; [done|]. split; [lia|]. split.
  - rewrite <-(take_drop 3 (rankedTags env uid)) in Hnd.
    by apply NoDup_app in Hnd as (? & _ & _).
  - rewrite reverse_Permutation.
    rewrite <-(take_drop (length (rankedTags env uid) - 3) (rankedTags env uid))
      in Hnd.
    by apply NoDup_app in Hnd as (_ & _ & ?).
Qed.

Lemma tag_lists_short_and_repeat_free_witness :
  ∃ top improvement,
    analyzeTagPerformance codingHistory "u" = inr (top, improvement)
    ∧ length top = min 3 (length (qualifyingTags "u" codingDocs))
    ∧ length improvement = min 3 (length (qualifyingTags "u" codingDocs))
    ∧ NoDup top ∧ NoDup improvement.
Proof.
  apply (tag_lists_short_and_repeat_free codingHistory "u"). reflexivity.
Defined.

(** X8.  When at most three tags qualify, [improvementAreaTags] is
    [topPerformingTags] read backwards, and both hold every qualifying
    tag. *)
Theorem few_qualifying_tags_fill_both_lists env uid :
  aggregateFault env = None →
  (length (qualifyingTags uid (sessionDocs env)) ≤ 3)%nat →
  ∃ top,
    analyzeTagPerformance env uid = inr (top, reverse top)
    ∧ top ≡ₚ qualifyingTags uid (sessionDocs env).
Proof.
  intros Hfault Hfew. rewrite analyzeTagPerformance_unfold by done.
  rewrite <-(rankedTags_qualifying env uid) in Hfew.
  exists (rankedTags env uid). split; [|apply rankedTags_qualifying].
  rewrite take_ge by done.
  replace (length (rankedTags env uid) - 3)%nat with 0%nat by lia.
  by rewrite drop_0.
Qed.

Lemma few_qualifying_tags_fill_both_lists_witness :
  ∃ top,
    analyzeTagPerformance codingHistory "u" = inr (top, reverse top)
    ∧ top ≡ₚ qualifyingTags "u" codingDocs.
Proof.
  apply (few_qualifying_tags_fill_both_lists codingHistory "u").
  - reflexivity.
  - vm_compute. lia.
Defined.

(** X9.  When six tags or more qualify, no tag is in both lists. *)
Theorem many_qualifying_tags_lists_disjoint env uid :
  aggregateFault env = None →
  (6 ≤ length (qualifyingTags uid (sessionDocs env)))%nat →
  ∃ top improvement,
    analyzeTagPerformance env uid = inr (top, improvement)
    ∧ ∀ tag, tag ∈ top → tag ∉ improvement.
Proof.
  intros Hfault Hmany. rewrite analyzeTagPerformance_unfold by done.
  rewrite <-(rankedTags_qualifying env uid) in Hmany.
  eexists _, _. split; [done|]. intros tag Htop Himp.
  pose proof (performance_ids_NoDup (sortStage env) uid (sessionDocs env))
    as Hnd. change (NoDup (rankedTags env uid)) in Hnd.
  rewrite <-(take_drop 3 (rankedTags env uid)) in Hnd.
  apply NoDup_app in Hnd as (_ & Hdisj & _).
  apply (Hdisj tag Htop). rewrite elem_of_reverse in Himp.
  replace (length (rankedTags env uid) - 3)%nat
    with (3 + (length (rankedTags env uid) - 6))%nat in Himp by lia.
  rewrite <-drop_drop in Himp. by eapply subseteq_drop.
Qed.

Lemma many_qualifying_tags_lists_disjoint_witness :
  ∃ top improvement,
    analyzeTagPerformance (quiet mergeSortStage sixTagDocs) "u"
    = inr (top, improvement)
    ∧ ∀ tag, tag ∈ top → tag ∉ improvement.
Proof.
  apply (many_qualifying_tags_lists_disjoint
           (quiet mergeSortStage sixTagDocs) "u").
  - reflexivity.
  - vm_compute. lia.
Defined.

Lemma qualifies_ranked env uid tag :
  qualifies uid (sessionDocs env) tag → tag ∈ rankedTags env uid.
Proof.
  intros Hq. rewrite rankedTags_qualifying. unfold qualifyingTags.
  apply list_elem_of_filter. split; [done|].
  by apply elem_of_remove_dups, qualifies_occurs.
Qed.

(** X10.  [topPerformingTags] runs from the highest mean rating down and
    [improvementAreaTags] from the lowest up; every qualifying tag left
    out of the former is rated no higher than its members, and every one
    left out of the latter no lower. *)
Theorem tag_lists_ordered_by_mean env uid :
  aggregateFault env = None →
  ∃ top improvement,
    analyzeTagPerformance env uid = inr (top, improvement)
    ∧ StronglySorted (meanDesc uid (sessionDocs env)) top
    ∧ StronglySorted (flip (meanDesc uid (sessionDocs env))) improvement
    ∧ (∀ t t', t ∈ top → qualifies uid (sessionDocs env) t' → t' ∉ top →
         meanRating uid (sessionDocs env) t'
         ≤ meanRating uid (sessionDocs env) t)
    ∧ (∀ t t', t ∈ improvement → qualifies uid (sessionDocs env) t' →
         t' ∉ improvement →
         meanRating uid (sessionDocs env) t
         ≤ meanRating uid (sessionDocs env) t').
Proof.
  intros Hfault. rewrite analyzeTagPerformance_unfold by done.
  eexists _, _. split; [done|].
  pose proof (rankedTags_sorted env uid) as Hsorted.
  set (names := rankedTags env uid) in *.
  split; [by apply StronglySorted_take|].
  split.
  { apply (StronglySorted_reverse (meanDesc uid (sessionDocs env))).
    by apply StronglySorted_drop. }
  split.
  - intros t t' Ht Hq%qualifies_ranked Hout. fold names in Hq.
    rewrite <-(take_drop 3 names) in Hsorted, Hq.
    apply elem_of_app in Hq as [Hq|Hq]; [done|].
    by apply (StronglySorted_app_1_elem_of _ _ _ t t' Hsorted).
  - intros t t' Ht Hq%qualifies_ranked Hout. fold names in Hq.
    rewrite elem_of_reverse in Ht, Hout.
    rewrite <-(take_drop (length names - 3) names) in Hsorted, Hq.
    apply elem_of_app in Hq as [Hq|Hq]; [|done].
    by apply (StronglySorted_app_1_elem_of _ _ _ t' t Hsorted).
Qed.

Lemma tag_lists_ordered_by_mean_witness :
  ∃ top improvement,
    analyzeTagPerformance codingHistory "u" = inr (top, improvement)
    ∧ StronglySorted (meanDesc "u" codingDocs) top
    ∧ StronglySorted (flip (meanDesc "u" codingDocs)) improvement
    ∧ (∀ t t', t ∈ top → qualifies "u" codingDocs t' → t' ∉ top →
         meanRating "u" codingDocs t' ≤ meanRating "u" codingDocs t)
    ∧ (∀ t t', t ∈ improvement → qualifies "u" codingDocs t' →
         t' ∉ improvement →
         meanRating "u" codingDocs t ≤ meanRating "u" codingDocs t').
Proof.
  apply (tag_lists_ordered_by_mean codingHistory "u"). reflexivity.
Defined.

Lemma samples_Permutation uid docs1 docs2 tag :
  docs1 ≡ₚ docs2 → samples uid docs1 tag ≡ₚ samples uid docs2 tag.
Proof.
  intros Hperm. unfold samples, Aggregate.ratingsOf, Aggregate.unwind.
  by rewrite Hperm.
Qed.

Lemma sampleCount_Permutation uid docs1 docs2 tag :
  docs1 ≡ₚ docs2 → sampleCount uid docs1 tag = sampleCount uid docs2 tag.
Proof.
  intros Hperm. unfold sampleCount.
  by rewrite (samples_Permutation uid docs1 docs2 tag Hperm).
Qed.

Lemma meanRating_Permutation uid docs1 docs2 tag :
  docs1 ≡ₚ docs2 → meanRating uid docs1 tag = meanRating uid docs2 tag.
Proof.
  intros Hperm. unfold meanRating.
  rewrite (sampleCount_Permutation uid docs1 docs2 tag Hperm).
  by rewrite (sum_Permutation _ _ (samples_Permutation uid docs1 docs2 tag Hperm)).
Qed.

(** X12.  When no two qualifying tags have the same mean rating, the
    lists returned depend neither on the order in which the store holds
    the sessions nor on how it sorts: any two stores holding the same
    documents return the same lists. *)
Theorem ranking_independent_of_document_order env1 env2 uid :
  sessionDocs env1 ≡ₚ sessionDocs env2 →
  aggregateFault env1 = aggregateFault env2 →
  (∀ t1 t2,
     qualifies uid (sessionDocs env1) t1 →
     qualifies uid (sessionDocs env1) t2 →
     meanRating uid (sessionDocs env1) t1 = meanRating uid (sessionDocs env1) t2 →
     t1 = t2) →
  analyzeTagPerformance env1 uid = analyzeTagPerformance env2 uid.
Proof.
  intros Hdocs Hfault Hdistinct.
  assert (∀ p, p ∈ ranked env2 uid ↔ p ∈ ranked env1 uid) as Hsame.
  { intros p. unfold ranked. rewrite !performance_entry.
    unfold qualifies.
    setoid_rewrite (sampleCount_Permutation uid _ _ _ Hdocs).
    by setoid_rewrite (meanRating_Permutation uid _ _ _ Hdocs). }
  assert (ranked env1 uid = ranked env2 uid) as Hranked.
  { apply (StronglySorted_unique_strong byAvgDesc).
    - intros p q Hp Hq%Hsame Hpq Hqp.
      apply performance_entry in Hp as (t1 & Hq1 & ->).
      apply performance_entry in Hq as (t2 & Hq2 & ->).
      unfold byAvgDesc in Hpq, Hqp; simpl in *.
      assert (t1 = t2) as ->; [|done].
      apply Hdistinct; [done..|]. by apply Qcle_antisym.
    - apply performance_sorted.
    - apply performance_sorted.
    - apply NoDup_Permutation.
      + eapply NoDup_fmap_1, performance_ids_NoDup.
      + eapply NoDup_fmap_1, performance_ids_NoDup.
      + intros p. by rewrite Hsame. }
  unfold analyzeTagPerformance. by rewrite Hfault, Hranked.
Qed.

Lemma ranking_independent_of_document_order_witness :
  analyzeTagPerformance (quiet mergeSortStage codingDocs) "u"
  = analyzeTagPerformance (quiet reversedSortStage (reverse codingDocs)) "u".
Proof.
  apply (ranking_independent_of_document_order
           (quiet mergeSortStage codingDocs)
           (quiet reversedSortStage (reverse codingDocs)) "u").
  - simpl. symmetry. apply reverse_Permutation.
  - reflexivity.
  - simpl.
    assert (∀ t, qualifies "u" codingDocs t → t = "coding" ∨ t = "meetings")
      as Hwhich.
    { intros t Hq. pose proof (qualifies_occurs _ _ _ Hq) as Hin.
      assert ((Aggregate.unwind "u" codingDocs).*1
              = ["coding"; "coding"; "meetings"; "coding"; "meetings";
                 "meetings"; "email"]) as Htags by reflexivity.
      rewrite Htags in Hin. rewrite !elem_of_cons, elem_of_nil in Hin.
      destruct Hin as [?|[?|[?|[?|[?|[?|[->|[]]]]]]]]; auto.
      exfalso. unfold qualifies in Hq. vm_compute in Hq. lia. }
    intros t1 t2 [->| ->]%Hwhich [->| ->]%Hwhich Hmean;
      try done; exfalso; apply (f_equal this) in Hmean;
      vm_compute in Hmean; discriminate Hmean.
Defined.

(** ** The orchestrator *)

Lemma stepFails_cases env uid :
  (∃ e, StepFails env uid e)
  ∨ ∃ fields, gatherInsights env uid = inr fields ∧ updateFault env = None.
Proof.
  destruct (gatherInsights env uid) as [e|fields] eqn:Hg.
  - left. exists e. by apply BeforeWrite, gatherInsights_fails.
  - destruct (updateFault env) as [e|] eqn:Hu.
    + left. exists e. by eapply UpdateRejects.
    + right. by exists fields.
Qed.

Lemma run_failed env uid e σ :
  StepFails env uid e →
  runAllAnalysesForUser env uid σ = (inr (), logged (errorLine uid e) σ).
Proof.
  intros [e' Hfail|e' fields Hg Hu].
  - by apply run_before_write.
  - by eapply run_update_rejected.
Qed.

(** X13.  Every run appends exactly one line to the console.  It is the
    success line exactly when no step failed, and then the update was
    applied; otherwise it is the error line of the one step that failed,
    and the user collection is as before. *)
Theorem run_logs_exactly_one_line env uid σ :
  (∃ fields,
     gatherInsights env uid = inr fields
     ∧ (∀ e, ¬ StepFails env uid e)
     ∧ runAllAnalysesForUser env uid σ
       = (inr (), {| users := alter (applySet fields) uid (users σ);
                     console := console σ ++ [successLine uid] |}))
  ∨ (∃ e,
       StepFails env uid e
       ∧ (∀ e', StepFails env uid e' → e' = e)
       ∧ runAllAnalysesForUser env uid σ
         = (inr (), {| users := users σ;
                       console := console σ ++ [errorLine uid e] |})).
Proof.
  destruct (stepFails_cases env uid) as [[e Hfail]|(fields & Hg & Hu)].
  - right. exists e. split; [done|]. split; [|by apply run_failed].
    intros e' Hfail'. apply (run_failed _ _ _ σ) in Hfail, Hfail'.
    rewrite Hfail in Hfail'. injection Hfail' as Heq.
    apply app_inj_tail in Heq as [_ Heq]. unfold errorLine in Heq.
    congruence.
  - left. exists fields. split; [done|].
    pose proof (run_success env uid fields σ Hg Hu) as Hrun.
    split; [|done]. intros e Hfail%(run_failed _ _ _ σ).
    rewrite Hrun in Hfail. injection Hfail as _ Hlog.
    by apply app_inj_tail in Hlog as [_ ?].
Qed.

(** X14.  Whatever the outcome, a run neither creates nor removes a user
    document, and leaves the documents of all other users as they
    were. *)
Theorem run_keeps_the_set_of_users env uid σ :
  dom (users (runAllAnalysesForUser env uid σ).2) = dom (users σ)
  ∧ ∀ other, other ≠ uid →
      users (runAllAnalysesForUser env uid σ).2 !! other = users σ !! other.
Proof.
  destruct (stepFails_cases env uid) as [[e Hfail]|(fields & Hg & Hu)].
  - by rewrite (run_failed env uid e).
  - rewrite (run_success env uid fields) by done. simpl. split.
    + apply dom_alter_L.
    + intros other Hne. by rewrite lookup_alter_ne.
Qed.

Lemma applySet_union fields (doc : UserDoc) :
  applySet fields doc = list_to_map (reverse fields) ∪ doc.
Proof.
  unfold applySet. induction fields as [|f fields IH] using rev_ind.
  - simpl. by rewrite (left_id_L ∅ (∪)).
  - rewrite foldl_app, reverse_app. simpl.
    by rewrite IH, insert_union_l.
Qed.

Lemma applySet_idemp fields (doc : UserDoc) :
  applySet fields (applySet fields doc) = applySet fields doc.
Proof.
  rewrite !applySet_union.
  by rewrite (assoc_L (∪)), (idemp_L (∪)).
Qed.

(** X15.  Repeating a run in the same environment leaves the user
    collection as the first run left it. *)
Theorem run_twice_same_profiles env uid σ :
  users (runAllAnalysesForUser env uid
           (runAllAnalysesForUser env uid σ).2).2
  = users (runAllAnalysesForUser env uid σ).2.
Proof.
  destruct (stepFails_cases env uid) as [[e Hfail]|(fields & Hg & Hu)].
  - by rewrite !(run_failed env uid e).
  - rewrite !(run_success env uid fields) by done. simpl.
    apply map_eq. intros id. destruct (decide (id = uid)) as [->|Hne].
    + rewrite !lookup_alter_eq. destruct (users σ !! uid); simpl; [|done].
      by rewrite applySet_idemp.
    + by rewrite !lookup_alter_ne.
Qed.

Lemma no_eligible_select uid docs :
  Forall (λ s, ¬ eligible uid s) docs → select uid docs = [].
Proof.
  unfold select. induction 1 as [|s rest Hs%Is_true_false _ IH]; [done|].
  rewrite bind_cons, IH, Hs. by destruct (rating s).
Qed.

Lemma no_eligible_unwind uid docs :
  Forall (λ s, ¬ eligible uid s) docs → Aggregate.unwind uid docs = [].
Proof.
  unfold Aggregate.unwind.
  induction 1 as [|s rest Hs%Is_true_false _ IH]; [done|].
  rewrite bind_cons, IH, Hs. by destruct (rating s).
Qed.

(** X16.  For a user without eligible sessions (and with no call
    failing) the analyzers return empty lists and ["Not enough data"],
    the text is asked for with the prompt rendered from these, and the
    profile is overwritten with these fallback values. *)
Theorem no_eligible_sessions_fallback_profile env uid habit σ :
  Forall (λ s, ¬ eligible uid s) (sessionDocs env) →
  aggregateFault env = None →
  findFault env = None →
  generateText env (renderPrompt [] [] NotEnoughData) = inr habit →
  updateFault env = None →
  analyzeTagPerformance env uid = inr ([], [])
  ∧ analyzePeakTime env uid = inr NotEnoughData
  ∧ runAllAnalysesForUser env uid σ
    = (inr (),
       {| users :=
            alter (applySet
                     [ ("aiInsights.topPerformingTags", VStrings []);
                       ("aiInsights.improvementAreaTags", VStrings []);
                       ("aiInsights.peakProductivityTime", VString NotEnoughData);
                       ("aiInsights.habitAnalysis", VString habit) ])
              uid (users σ);
          console := console σ ++ [successLine uid] |}).
Proof.
  intros Hnone Hagg Hfind Hgen Hupdate.
  assert (analyzeTagPerformance env uid = inr ([], [])) as Htags.
  { rewrite analyzeTagPerformance_unfold by done.
    unfold rankedTags, ranked, Aggregate.pipeline.
    rewrite no_eligible_unwind by done.
    change (Aggregate.group []) with (@nil Performance).
    by rewrite (proj1 (Permutation_nil_r _) (sortDesc_perm [])). }
  assert (analyzePeakTime env uid = inr NotEnoughData) as Hpeak.
  { rewrite analyzePeakTime_unfold by done. unfold eligibleSessions.
    by rewrite no_eligible_select. }
  split; [done|]. split; [done|].
  by rewrite (run_success env uid _ σ
                (gatherInsights_fields _ _ _ _ _ _ Htags Hpeak Hgen) Hupdate).
Qed.

Lemma no_eligible_sessions_fallback_profile_witness :
  analyzeTagPerformance (quiet mergeSortStage codingDocs) "nobody" = inr ([], [])
  ∧ analyzePeakTime (quiet mergeSortStage codingDocs) "nobody"
    = inr NotEnoughData
  ∧ runAllAnalysesForUser (quiet mergeSortStage codingDocs) "nobody" runtime0
    = (inr (),
       {| users :=
            alter (applySet
                     [ ("aiInsights.topPerformingTags", VStrings []);
                       ("aiInsights.improvementAreaTags", VStrings []);
                       ("aiInsights.peakProductivityTime", VString NotEnoughData);
                       ("aiInsights.habitAnalysis", VString "Keep it up!") ])
              "nobody" (users runtime0);
          console := console runtime0 ++ [successLine "nobody"] |}).
Proof.
  apply (no_eligible_sessions_fallback_profile
           (quiet mergeSortStage codingDocs) "nobody" "Keep it up!" runtime0).
  - repeat constructor; by vm_compute.
  - reflexivity.
  - reflexivity.
  - reflexivity.
  - reflexivity.
Defined.

Lemma append_empty (s1 s2 : string) : s1 +:+ s2 = "" → s1 = "" ∧ s2 = "".
Proof. by destruct s1. Qed.

Lemma join_empty l : Js.join ", " l = "" ↔ l = [] ∨ l = [""].
Proof.
  split.
  - destruct l as [|x [|y rest]]; simpl.
    + by left.
    + intros ->. by right.
    + intros [_ Hrest]%append_empty. discriminate Hrest.
  - by intros [-> | ->].
Qed.

(** X17.  In the prompt a tag list is replaced by ["None yet"] exactly
    when joining it gives the empty string, that is, when the list is
    empty or holds the empty tag alone; any other list is printed with
    its tags separated by a comma and a space. *)
Theorem empty_tag_list_renders_placeholder l :
  Js.or_else (Js.join ", " l) "None yet"
  = if decide (l = [] ∨ l = [""]) then "None yet" else Js.join ", " l.
Proof.
  unfold Js.or_else. case_decide as Hl.
  - apply join_empty in Hl. by rewrite Hl.
  - rewrite <-join_empty in Hl. by rewrite bool_decide_eq_false_2.
Qed.

(** * The peak time in double arithmetic *)

(** ** The order of doubles *)

Lemma SFcompare_opp x y c :
  SFcompare x y = Some c → SFcompare y x = Some (CompOpp c).
Proof.
  destruct x as [sx|sx| |sx mx ex], y as [sy|sy| |sy my ey]; simpl;
    try destruct sx; try destruct sy; simpl; try (by intros [= <-]); try done.
  - rewrite (Z.compare_antisym ex ey).
    change (Pos.compare_cont Eq my mx) with (Pos.compare my mx).
    change (Pos.compare_cont Eq mx my) with (Pos.compare mx my).
    rewrite (Pos.compare_antisym mx my).
    intros [= <-]. by destruct (ex ?= ey)%Z, (mx ?= my)%positive.
  - rewrite (Z.compare_antisym ex ey).
    change (Pos.compare_cont Eq my mx) with (Pos.compare my mx).
    change (Pos.compare_cont Eq mx my) with (Pos.compare mx my).
    rewrite (Pos.compare_antisym mx my).
    intros [= <-]. by destruct (ex ?= ey)%Z, (mx ?= my)%positive.
Qed.

Lemma lt_irrefl x : Binary64.lt x x = false.
Proof.
  unfold Binary64.lt, SFltb.
  destruct x as [s|s| |s m e]; simpl; [by destruct s..|done|].
  change (Pos.compare_cont Eq m m) with (Pos.compare m m).
  rewrite Z.compare_refl, Pos.compare_refl. by destruct s.
Qed.

Ltac order_cases :=
  repeat match goal with
  | H : context [(?a ?= ?b)%Z] |- _ =>
      destruct (Z.compare_spec a b); simpl in H; try done
  | |- context [(?a ?= ?b)%Z] =>
      destruct (Z.compare_spec a b); simpl; try done
  | H : context [(?a ?= ?b)%positive] |- _ =>
      destruct (Pos.compare_spec a b); simpl in H; try done
  | |- context [(?a ?= ?b)%positive] =>
      destruct (Pos.compare_spec a b); simpl; try done
  end; try lia.

Lemma SFcompare_trans x y z c :
  SFcompare x y = Some c → SFcompare y z = Some c → SFcompare x z = Some c.
Proof.
  destruct x as [sx|sx| |sx mx ex], y as [sy|sy| |sy my ey],
    z as [sz|sz| |sz mz ez]; simpl; try done;
    try destruct sx; try destruct sy; try destruct sz; simpl;
    try (by intros [= <-]); try (by intros [= <-] [= ?]);
    change (Pos.compare_cont Eq) with Pos.compare;
    intros [= <-]; intros [= Hyz]; f_equal; order_cases.
Qed.

Lemma SFcompare_lt_eq x y z :
  SFcompare x y = Some Lt → SFcompare y z = Some Eq → SFcompare x z = Some Lt.
Proof.
  destruct x as [sx|sx| |sx mx ex], y as [sy|sy| |sy my ey],
    z as [sz|sz| |sz mz ez]; simpl; try done;
    try destruct sx; try destruct sy; try destruct sz; simpl; try done;
    change (Pos.compare_cont Eq) with Pos.compare;
    intros [= Hxy]; intros [= Hyz]; f_equal; order_cases.
Qed.

Lemma lt_trans x y z :
  Binary64.lt x y = true → Binary64.lt y z = true → Binary64.lt x z = true.
Proof.
  unfold Binary64.lt, SFltb.
  destruct (SFcompare x y) as [[]|] eqn:Hxy; try done.
  destruct (SFcompare y z) as [[]|] eqn:Hyz; try done.
  by rewrite (SFcompare_trans x y z Lt).
Qed.

Lemma lt_le_trans x y z :
  Binary64.lt x y = true → Binary64.le y z = true → Binary64.lt x z = true.
Proof.
  unfold Binary64.lt, Binary64.le, SFltb, SFleb.
  destruct (SFcompare x y) as [[]|] eqn:Hxy; try done.
  destruct (SFcompare y z) as [[]|] eqn:Hyz; try done.
  - by rewrite (SFcompare_lt_eq x y z).
  - by rewrite (SFcompare_trans x y z Lt).
Qed.


(** On doubles that are numbers the order is total. *)
Lemma lt_or_le x y :
  x ≠ S754_nan → y ≠ S754_nan →
  Binary64.lt x y = true ∨ Binary64.le y x = true.
Proof.
  intros Hx Hy. unfold Binary64.lt, Binary64.le, SFltb, SFleb.
  destruct (SFcompare x y) as [c|] eqn:Hxy.
  - rewrite (SFcompare_opp _ _ _ Hxy). destruct c; auto.
  - destruct x, y; try done; simpl in Hxy; by repeat case_match.
Qed.

(** ** The loop *)

Lemma b64_lookup_cons block k a (rest : Binary64.Ratings) :
  Binary64.lookup block ((k, a) :: rest)
  = if decide (k = block) then Some a else Binary64.lookup block rest.
Proof.
  unfold Binary64.lookup. simpl.
  destruct (decide (k = block)) as [->|Hne].
  - by rewrite bool_decide_eq_true_2.
  - by rewrite bool_decide_eq_false_2.
Qed.

Lemma b64_countSum_cons k a (rest : Binary64.Ratings) :
  Binary64.countSum ((k, a) :: rest)
  = (Binary64.count a + Binary64.countSum rest)%nat.
Proof. reflexivity. Qed.

Lemma b64_add_present block r (tbr : Binary64.Ratings) :
  block ∈ tbr.*1 →
  ∃ tbr', Binary64.add block r tbr = inr tbr'
    ∧ tbr'.*1 = tbr.*1
    ∧ Binary64.countSum tbr' = S (Binary64.countSum tbr)
    ∧ ∀ b, Binary64.lookup b tbr'
         = if decide (b = block)
           then Binary64.bump r <$> Binary64.lookup b tbr
           else Binary64.lookup b tbr.
Proof.
  induction tbr as [|[k a] rest IH]; simpl; [by intros ?%elem_of_nil|].
  intros Hin. destruct (decide (k = block)) as [->|Hne].
  - rewrite bool_decide_eq_true_2 by done. eexists. split; [done|].
    split; [done|]. split; [done|]. intros b. rewrite !b64_lookup_cons.
    destruct (decide (block = b)) as [->|?].
    + by rewrite decide_True.
    + by rewrite decide_False.
  - rewrite bool_decide_eq_false_2 by done.
    destruct IH as (rest' & -> & Hkeys & Hcount & Hlook); [set_solver|].
    unfold_result. eexists. split; [done|]. simpl. split; [by f_equal|].
    split.
    { rewrite !b64_countSum_cons, Hcount. lia. }
    intros b. rewrite !b64_lookup_cons, Hlook.
    destruct (decide (k = b)) as [->|?]; [|done].
    by rewrite decide_False.
Qed.

Lemma b64_absorb_nil a : Binary64.absorb [] a = a.
Proof.
  destruct a as [t c]. unfold Binary64.absorb; simpl. by rewrite Nat.add_0_r.
Qed.

Lemma b64_absorb_cons r rs a :
  Binary64.absorb (r :: rs) a = Binary64.absorb rs (Binary64.bump r a).
Proof.
  destruct a as [t c]. unfold Binary64.absorb, Binary64.bump; simpl.
  f_equal. lia.
Qed.

Lemma b64_tally_startHour tz tbr s :
  sel_intervals s ≠ [] →
  Binary64.tally tz tbr s
  = Binary64.add (blockOfHour (startHour tz s))
      (Binary64.toDouble (sel_rating s)) tbr.
Proof. unfold Binary64.tally, startHour. by destruct (sel_intervals s). Qed.

(** On sessions that all have a first interval the loop runs to its end;
    every session is counted once, and every block ends up with the
    running sum, in the order of the documents, of the ratings of its
    sessions. *)
Lemma b64_forEach_absorbs tz sessions tbr0 :
  tbr0.*1 = blockLabels →
  Forall (λ s, sel_intervals s ≠ []) sessions →
  ∃ tbr, Binary64.forEach tz sessions tbr0 = inr tbr
    ∧ tbr.*1 = blockLabels
    ∧ Binary64.countSum tbr = (Binary64.countSum tbr0 + length sessions)%nat
    ∧ ∀ b, Binary64.lookup b tbr
         = Binary64.absorb (Binary64.blockRatings tz b sessions)
             <$> Binary64.lookup b tbr0.
Proof.
  intros Hkeys Hall. revert tbr0 Hkeys.
  induction Hall as [|s rest Hs _ IH]; intros tbr0 Hkeys; simpl.
  - exists tbr0. split; [done|]. split; [done|]. split; [lia|]. intros b.
    destruct (Binary64.lookup b tbr0); simpl; [|done].
    by rewrite b64_absorb_nil.
  - rewrite b64_tally_startHour by done.
    destruct (b64_add_present (blockOfHour (startHour tz s))
                (Binary64.toDouble (sel_rating s)) tbr0)
      as (tbr1 & -> & Hkeys1 & Hcount1 & Hlook1).
    { rewrite Hkeys. apply blockOfHour_label. }
    unfold_result.
    destruct (IH tbr1) as (tbr & -> & Hkeys2 & Hcount2 & Hlook2); [congruence|].
    exists tbr. split; [done|]. split; [done|]. split; [lia|]. intros b.
    rewrite Hlook2, Hlook1. unfold Binary64.blockRatings.
    rewrite filter_cons. unfold inBlock at 2.
    destruct (decide (b = blockOfHour (startHour tz s))) as [->|Hne].
    + rewrite decide_True by done.
      destruct (Binary64.lookup _ tbr0); simpl; [|done].
      by rewrite b64_absorb_cons.
    + by rewrite decide_False by congruence.
Qed.

Lemma b64_forEach_throws tz sessions tbr0 :
  tbr0.*1 = blockLabels →
  Exists (λ s, sel_intervals s = []) sessions →
  Binary64.forEach tz sessions tbr0 = inl noFirstInterval.
Proof.
  intros Hkeys Hex. revert tbr0 Hkeys.
  induction Hex as [s rest Hs|s rest _ IH]; intros tbr0 Hkeys; simpl.
  - unfold Binary64.tally. by rewrite Hs.
  - destruct (sel_intervals s) as [|first more] eqn:Hs.
    { unfold Binary64.tally. by rewrite Hs. }
    rewrite b64_tally_startHour by (by rewrite Hs).
    destruct (b64_add_present (blockOfHour (startHour tz s))
                (Binary64.toDouble (sel_rating s)) tbr0)
      as (tbr1 & -> & Hkeys1 & _).
    { rewrite Hkeys. apply blockOfHour_label. }
    unfold_result. apply IH. congruence.
Qed.

Lemma b64_lookup_timeBlockRatings0 b :
  b ∈ blockLabels →
  Binary64.lookup b Binary64.timeBlockRatings0
  = Some {| Binary64.totalRating := Binary64.zero; Binary64.count := 0 |}.
Proof.
  unfold blockLabels. rewrite !elem_of_cons, elem_of_nil.
  intros [->|[->|[->|[->|[]]]]]; reflexivity.
Qed.

Lemma b64_forEach_blockStat tz sessions :
  Forall (λ s, sel_intervals s ≠ []) sessions →
  ∃ tbr, Binary64.forEach tz sessions Binary64.timeBlockRatings0 = inr tbr
    ∧ tbr.*1 = blockLabels
    ∧ Binary64.countSum tbr = length sessions
    ∧ ∀ b, b ∈ blockLabels →
        Binary64.lookup b tbr = Some (Binary64.blockStat tz b sessions).
Proof.
  intros Hall.
  destruct (b64_forEach_absorbs tz sessions Binary64.timeBlockRatings0)
    as (tbr & Hrun & Hkeys & Hcount & Hlook); [done..|].
  exists tbr. split; [done|]. split; [done|]. split; [done|]. intros b Hb.
  by rewrite Hlook, b64_lookup_timeBlockRatings0.
Qed.

(** ** The selection *)

(** Invariant of the selection loop, started from any pair [(p0, m0)]:
    the running maximum is [m0] or above it, and no populated block seen
    has a mean above it; either nothing beat [m0], or the label is that
    of an entry whose mean is the final maximum and which no earlier
    populated entry equals or exceeds. *)
Lemma b64_peak_loop (tbr : Binary64.Ratings) p0 m0 :
  ∃ p m, foldl Binary64.peakStep (p0, m0) tbr = (p, m)
    ∧ (m = m0 ∨ Binary64.lt m0 m = true)
    ∧ Forall (λ e, Binary64.hasSamples e.2 →
                Binary64.lt m (Binary64.mean e.2) = false) tbr
    ∧ ((p = p0 ∧ m = m0)
       ∨ ∃ pre a post, tbr = pre ++ (p, a) :: post
           ∧ Binary64.hasSamples a ∧ Binary64.mean a = m
           ∧ Binary64.lt m0 m = true
           ∧ Forall (λ e, Binary64.hasSamples e.2 →
                       Binary64.le m (Binary64.mean e.2) = false) pre).
Proof.
  induction tbr as [|[k a] tbr IH] using rev_ind.
  - exists p0, m0. simpl. split; [done|]. split; [by left|].
    split; [constructor|by left].
  - destruct IH as (p & m & Hrun & Hle & Hbound & Hwho).
    rewrite foldl_app, Hrun. unfold Binary64.peakStep; simpl.
    destruct (decide (Binary64.hasSamples a)) as [Ha|Ha].
    + unfold Binary64.hasSamples in Ha. rewrite bool_decide_eq_true_2 by done.
      unfold Binary64.gt.
      destruct (SFltb m (Binary64.mean a)) eqn:Hlt.
      * change (Binary64.lt m (Binary64.mean a) = true) in Hlt.
        exists k, (Binary64.mean a). split; [done|].
        assert (Binary64.lt m0 (Binary64.mean a) = true) as Hm0.
        { destruct Hle as [->|Hle]; [done|]. by eapply lt_trans. }
        split; [by right|]. split.
        { apply Forall_app. split.
          - eapply Forall_impl; [exact Hbound|]. simpl. intros e He Hs.
            specialize (He Hs).
            destruct (Binary64.lt (Binary64.mean a) (Binary64.mean e.2))
              eqn:Hae; [|done].
            by rewrite (lt_trans _ _ _ Hlt Hae) in He.
          - constructor; [|constructor]. intros _. apply lt_irrefl. }
        right. exists tbr, a, []. split; [done|]. split; [done|].
        split; [done|]. split; [done|].
        eapply Forall_impl; [exact Hbound|]. simpl. intros e He Hs.
        specialize (He Hs).
        destruct (Binary64.le (Binary64.mean a) (Binary64.mean e.2))
          eqn:Hae; [|done].
        by rewrite (lt_le_trans _ _ _ Hlt Hae) in He.
      * exists p, m. split; [done|]. split; [done|].
        split.
        { apply Forall_app. split; [done|].
          constructor; [|constructor]. by intros _. }
        destruct Hwho as [?|(pre & a' & post & -> & ? & ? & ? & ?)]; [by left|].
        right. exists pre, a', (post ++ [(k, a)]).
        by rewrite <-app_assoc.
    + unfold Binary64.hasSamples in Ha. rewrite bool_decide_eq_false_2 by done.
      exists p, m. split; [done|]. split; [done|].
      split.
      { apply Forall_app. split; [done|].
        constructor; [|constructor]. simpl. by intros ?. }
      destruct Hwho as [?|(pre & a' & post & -> & ? & ? & ? & ?)]; [by left|].
      right. exists pre, a', (post ++ [(k, a)]).
      by rewrite <-app_assoc.
Qed.

Lemma b64_elem_of_lookup k a (tbr : Binary64.Ratings) :
  NoDup tbr.*1 → (k, a) ∈ tbr → Binary64.lookup k tbr = Some a.
Proof.
  induction tbr as [|[k' a'] rest IH]; simpl; [by intros _ ?%elem_of_nil|].
  rewrite NoDup_cons, elem_of_cons, b64_lookup_cons. intros [Hk Hnd] [Heq|Hin].
  - simplify_eq. by rewrite decide_True.
  - rewrite decide_False; [by apply IH|].
    intros ->. apply Hk. apply list_elem_of_fmap. by exists (k, a).
Qed.

Lemma b64_populated_label tz block sessions :
  Binary64.populated tz block sessions → block ∈ blockLabels.
Proof.
  unfold Binary64.populated, Binary64.blockStat, Binary64.blockRatings; simpl.
  rewrite length_fmap.
  destruct (filter (inBlock tz block) sessions) as [|s l] eqn:Hf; simpl; [lia|].
  intros _. assert (s ∈ filter (inBlock tz block) sessions) as Hs
    by (rewrite Hf; left).
  apply list_elem_of_filter in Hs as [<- _]. apply blockOfHour_label.
Qed.

(** The outcome of the computation in terms of the sessions.  Means are
    the ones the code computes, [Binary64.blockMean]. *)
Lemma b64_peakTimeOf_cases tz sessions :
  Forall (λ s, sel_intervals s ≠ []) sessions →
  ∃ peak, Binary64.peakTimeOf tz sessions = inr peak
    ∧ ((peak = NotEnoughData
        ∧ ∀ b, Binary64.populated tz b sessions →
            Binary64.gt (Binary64.blockMean tz b sessions) Binary64.zero
            = false)
       ∨ (∃ before after, blockLabels = before ++ peak :: after
            ∧ Binary64.populated tz peak sessions
            ∧ Binary64.gt (Binary64.blockMean tz peak sessions) Binary64.zero
              = true
            ∧ (∀ b, Binary64.populated tz b sessions →
                 Binary64.gt (Binary64.blockMean tz b sessions)
                   (Binary64.blockMean tz peak sessions) = false)
            ∧ (∀ b, b ∈ before → Binary64.populated tz b sessions →
                 Binary64.le (Binary64.blockMean tz peak sessions)
                   (Binary64.blockMean tz b sessions) = false))).
Proof.
  intros Hall. unfold Binary64.peakTimeOf.
  destruct (b64_forEach_blockStat tz sessions Hall)
    as (tbr & -> & Hkeys & _ & Hlook).
  unfold_result. exists (Binary64.pickPeak tbr). split; [done|].
  assert (NoDup tbr.*1) as Hnd by (rewrite Hkeys; apply blockLabels_NoDup).
  assert (∀ b a, (b, a) ∈ tbr → a = Binary64.blockStat tz b sessions)
    as Hentry.
  { intros b a Hin. assert (b ∈ blockLabels) as Hb.
    { rewrite <-Hkeys. apply list_elem_of_fmap. by exists (b, a). }
    apply (b64_elem_of_lookup _ _ _ Hnd) in Hin.
    rewrite Hlook in Hin by done. congruence. }
  assert (∀ b, Binary64.populated tz b sessions →
            (b, Binary64.blockStat tz b sessions) ∈ tbr) as Hfind.
  { intros b Hb%b64_populated_label. pose proof Hb as Hb'.
    rewrite <-Hkeys in Hb'.
    apply list_elem_of_fmap in Hb' as ([b' a] & -> & Hin).
    simpl in *. by rewrite <-(Hentry _ _ Hin). }
  unfold Binary64.pickPeak.
  destruct (b64_peak_loop tbr NotEnoughData Binary64.zero)
    as (p & m & Hrun & _ & Hbound & Hwho).
  rewrite Hrun. simpl.
  destruct Hwho as [[-> ->]|(pre & a & post & Htbr & Ha & <- & Hpos & Hpre)].
  - left. split; [done|]. intros b Hb.
    rewrite Forall_forall in Hbound. by apply (Hbound _ (Hfind b Hb)).
  - right. assert (a = Binary64.blockStat tz p sessions) as ->.
    { apply Hentry. rewrite Htbr. set_solver. }
    exists pre.*1, post.*1. split.
    { rewrite <-Hkeys, Htbr. by rewrite fmap_app. }
    split; [done|]. split; [done|]. split.
    + intros b Hb. rewrite Forall_forall in Hbound.
      by apply (Hbound _ (Hfind b Hb)).
    + intros b Hin Hb. apply list_elem_of_fmap in Hin as ([b' a'] & -> & Hin).
      simpl in *. rewrite Forall_forall in Hpre.
      assert (a' = Binary64.blockStat tz b' sessions) as ->.
      { apply Hentry. rewrite Htbr. set_solver. }
      by apply (Hpre _ Hin).
Qed.

Lemma b64_analyzePeakTime_unfold env uid :
  findFault env = None →
  Binary64.analyzePeakTime env uid
  = Binary64.peakTimeOf (tzOffset env) (eligibleSessions env uid).
Proof. intros Hf. unfold Binary64.analyzePeakTime. by rewrite Hf. Qed.

(** ** The claims on the selection *)

(** C1, in the form the code satisfies.  When the query answers and every
    eligible session has a first interval, [analyzePeakTime] returns
    ["Not enough data"] exactly when no populated block has a mean above
    0 (in particular when no block is populated); otherwise it returns
    the label of a populated block whose mean is above 0, which no
    populated block's mean exceeds and which no earlier block, in the
    order Morning, Afternoon, Evening, Night, equals or exceeds.  The mean
    of a block is the one the code computes: the running sum of the
    ratings of its sessions, added as doubles in the order of the
    documents, divided by their number. *)
Theorem analyzePeakTime_first_greatest_computed_mean env uid :
  findFault env = None →
  Forall (λ s, sel_intervals s ≠ []) (eligibleSessions env uid) →
  ∃ peak, Binary64.analyzePeakTime env uid = inr peak
    ∧ (peak = NotEnoughData
       ↔ ∀ b, Binary64.populated (tzOffset env) b (eligibleSessions env uid) →
           Binary64.gt
             (Binary64.blockMean (tzOffset env) b (eligibleSessions env uid))
             Binary64.zero = false)
    ∧ (peak ≠ NotEnoughData →
       ∃ before after, blockLabels = before ++ peak :: after
         ∧ Binary64.populated (tzOffset env) peak (eligibleSessions env uid)
         ∧ Binary64.gt
             (Binary64.blockMean (tzOffset env) peak (eligibleSessions env uid))
             Binary64.zero = true
         ∧ (∀ b, Binary64.populated (tzOffset env) b (eligibleSessions env uid) →
              Binary64.gt
                (Binary64.blockMean (tzOffset env) b (eligibleSessions env uid))
                (Binary64.blockMean (tzOffset env) peak (eligibleSessions env uid))
              = false)
         ∧ (∀ b, b ∈ before →
              Binary64.populated (tzOffset env) b (eligibleSessions env uid) →
              Binary64.le
                (Binary64.blockMean (tzOffset env) peak (eligibleSessions env uid))
                (Binary64.blockMean (tzOffset env) b (eligibleSessions env uid))
              = false)).
Proof.
  intros Hfault Hall. rewrite b64_analyzePeakTime_unfold by done.
  set (sessions := eligibleSessions env uid) in *.
  set (tz := tzOffset env) in *.
  destruct (b64_peakTimeOf_cases tz sessions Hall)
    as (peak & Hrun & [[Hned Hnone]|Hsome]); exists peak; (split; [done|]).
  - split; [done|]. by intros [].
  - destruct Hsome as (before & after & Hsplit & Hpop & Hpos & Hmax & Hfirst).
    assert (peak ≠ NotEnoughData) as Hne.
    { intros ->. apply NotEnoughData_not_label. rewrite Hsplit. set_solver. }
    split.
    + split; [done|]. intros Hnone. exfalso.
      rewrite (Hnone peak Hpop) in Hpos. done.
    + intros _. by exists before, after.
Qed.

Lemma analyzePeakTime_first_greatest_computed_mean_witness :
  ∃ peak, Binary64.analyzePeakTime (quiet mergeSortStage nearTie) "u" = inr peak
    ∧ (peak = NotEnoughData
       ↔ ∀ b, Binary64.populated utc b
                (eligibleSessions (quiet mergeSortStage nearTie) "u") →
           Binary64.gt
             (Binary64.blockMean utc b
                (eligibleSessions (quiet mergeSortStage nearTie) "u"))
             Binary64.zero = false)
    ∧ (peak ≠ NotEnoughData →
       ∃ before after, blockLabels = before ++ peak :: after
         ∧ Binary64.populated utc peak
             (eligibleSessions (quiet mergeSortStage nearTie) "u")
         ∧ Binary64.gt
             (Binary64.blockMean utc peak
                (eligibleSessions (quiet mergeSortStage nearTie) "u"))
             Binary64.zero = true
         ∧ (∀ b, Binary64.populated utc b
                   (eligibleSessions (quiet mergeSortStage nearTie) "u") →
              Binary64.gt
                (Binary64.blockMean utc b
                   (eligibleSessions (quiet mergeSortStage nearTie) "u"))
                (Binary64.blockMean utc peak
                   (eligibleSessions (quiet mergeSortStage nearTie) "u"))
              = false)
         ∧ (∀ b, b ∈ before →
              Binary64.populated utc b
                (eligibleSessions (quiet mergeSortStage nearTie) "u") →
              Binary64.le
                (Binary64.blockMean utc peak
                   (eligibleSessions (quiet mergeSortStage nearTie) "u"))
                (Binary64.blockMean utc b
                   (eligibleSessions (quiet mergeSortStage nearTie) "u"))
              = false)).
Proof.
  apply (analyzePeakTime_first_greatest_computed_mean
           (quiet mergeSortStage nearTie) "u").
  - reflexivity.
  - repeat constructor; discriminate.
Defined.



(** The two evaluations of [analyzePeakTime] fail on the same inputs,
    with the same error. *)
Lemma b64_same_errors env uid e :
  Binary64.analyzePeakTime env uid = inl e ↔ analyzePeakTime env uid = inl e.
Proof.
  unfold Binary64.analyzePeakTime, analyzePeakTime.
  destruct (findFault env) as [e'|]; [done|]. unfold_result; simpl.
  destruct (first_interval_dichotomy (eligibleSessions env uid)) as [Hall|Hex].
  - destruct (b64_peakTimeOf_cases (tzOffset env) _ Hall) as (p1 & -> & _).
    by destruct (peakTimeOf_cases (tzOffset env) _ Hall) as (p2 & -> & _).
  - unfold Binary64.peakTimeOf, peakTimeOf.
    by rewrite b64_forEach_throws, forEach_throws.
Qed.

(** Doubles at work: 0.1 + 0.2 + 0.3 is 0.6000000000000001, whose third
    exceeds 0.2; added the other way round the sum is 0.6, whose third is
    below 0.2. *)
Example near_tie_afternoon_total :
  Binary64.totalRating
    (Binary64.blockStat utc TimeBlock.Afternoon
       (eligibleSessions (quiet mergeSortStage nearTie) "u"))
  = S754_finite false 5404319552844596 (-53).
Proof. by vm_compute. Qed.

Example near_tie_depends_on_order :
  Binary64.analyzePeakTime (quiet mergeSortStage nearTie) "u"
  = inr TimeBlock.Afternoon
  ∧ Binary64.analyzePeakTime (quiet mergeSortStage (reverse nearTie)) "u"
    = inr TimeBlock.Morning.
Proof. by vm_compute. Qed.

(** A session rated 0 populates its block and leaves the fallback label,
    in doubles as in exact arithmetic. *)
Example zero_rated_in_doubles :
  Binary64.analyzePeakTime zeroRated "u" = inr NotEnoughData
  ∧ Binary64.count
      (Binary64.blockStat utc TimeBlock.Morning (eligibleSessions zeroRated "u"))
    = 1%nat.
Proof. by vm_compute. Qed.

(** Ratings that cancel exactly leave a positive double, and the block
    is reported. *)
Example cancelling_ratings_leave_a_residue :
  Aggregate.sum (sel_rating <$> eligibleSessions (quiet mergeSortStage cancelling) "u")
  = 0
  ∧ Binary64.analyzePeakTime (quiet mergeSortStage cancelling) "u"
    = inr TimeBlock.Morning.
Proof. split; [by apply Qc_is_canon|by vm_compute]. Qed.

(** ** Further properties of the loop *)

(** X1.  When every session has a first interval, the loop counts each
    session in exactly one block: the four counts add up to the number of
    sessions; and the [totalRating] of a block is the running sum, in the
    order of the documents, of the ratings of its sessions, added as
    doubles. *)
Theorem every_session_counted_once tz sessions :
  Forall (λ s, sel_intervals s ≠ []) sessions →
  ∃ tbr, Binary64.forEach tz sessions Binary64.timeBlockRatings0 = inr tbr
    ∧ Binary64.countSum tbr = length sessions
    ∧ ∀ b, b ∈ blockLabels →
        Binary64.lookup b tbr
        = Some {| Binary64.totalRating :=
                    foldl Binary64.plus Binary64.zero
                      (Binary64.blockRatings tz b sessions);
                  Binary64.count :=
                    length (filter (inBlock tz b) sessions) |}.
Proof.
  intros Hall.
  destruct (b64_forEach_blockStat tz sessions Hall)
    as (tbr & Hrun & _ & Hcount & Hlook).
  exists tbr. split; [done|]. split; [done|]. intros b Hb.
  rewrite (Hlook b Hb). unfold Binary64.blockStat, Binary64.blockRatings.
  by rewrite length_fmap.
Qed.

Lemma every_session_counted_once_witness :
  ∃ tbr, Binary64.forEach utc (select "u" nearTie) Binary64.timeBlockRatings0
         = inr tbr
    ∧ Binary64.countSum tbr = length (select "u" nearTie)
    ∧ ∀ b, b ∈ blockLabels →
        Binary64.lookup b tbr
        = Some {| Binary64.totalRating :=
                    foldl Binary64.plus Binary64.zero
                      (Binary64.blockRatings utc b (select "u" nearTie));
                  Binary64.count :=
                    length (filter (inBlock utc b) (select "u" nearTie)) |}.
Proof.
  apply (every_session_counted_once utc (select "u" nearTie)).
  repeat constructor; discriminate.
Defined.

Lemma b64_table_unique (f : string → Binary64.Stat) labels
    (tbr : Binary64.Ratings) :
  NoDup labels → tbr.*1 = labels →
  (∀ b, b ∈ labels → Binary64.lookup b tbr = Some (f b)) →
  tbr = (λ b, (b, f b)) <$> labels.
Proof.
  revert labels. induction tbr as [|[k a] rest IH]; intros labels Hnd <- Hlook.
  - done.
  - simpl in *. apply NoDup_cons in Hnd as [Hk Hnd].
    pose proof (Hlook k ltac:(left)) as Hhead.
    rewrite b64_lookup_cons, decide_True in Hhead by done. simplify_eq.
    f_equal. apply IH; [done..|]. intros b Hb.
    rewrite <-Hlook by (by right).
    rewrite b64_lookup_cons, decide_False; [done|]. by intros ->.
Qed.

(** The loop and the selection in closed form. *)
Lemma b64_peakTimeOf_closed tz sessions :
  Forall (λ s, sel_intervals s ≠ []) sessions →
  Binary64.peakTimeOf tz sessions
  = inr (Binary64.pickPeak
           ((λ b, (b, Binary64.blockStat tz b sessions)) <$> blockLabels)).
Proof.
  intros Hall. unfold Binary64.peakTimeOf.
  destruct (b64_forEach_blockStat tz sessions Hall)
    as (tbr & -> & Hkeys & _ & Hlook).
  unfold_result. do 2 f_equal.
  by apply b64_table_unique; [apply blockLabels_NoDup|..].
Qed.

(** X3.  The label depends on the sessions only through, for each block,
    the sequence of the ratings of its sessions in the order of the
    documents: how the sessions of different blocks are interleaved does
    not matter.  (The order within a block can matter, see
    [near_tie_depends_on_order].) *)
Theorem analyzePeakTime_order_across_blocks_irrelevant env1 env2 uid :
  findFault env1 = None → findFault env2 = None →
  Forall (λ s, sel_intervals s ≠ []) (eligibleSessions env1 uid) →
  Forall (λ s, sel_intervals s ≠ []) (eligibleSessions env2 uid) →
  (∀ b, b ∈ blockLabels →
     Binary64.blockRatings (tzOffset env1) b (eligibleSessions env1 uid)
     = Binary64.blockRatings (tzOffset env2) b (eligibleSessions env2 uid)) →
  Binary64.analyzePeakTime env1 uid = Binary64.analyzePeakTime env2 uid.
Proof.
  intros Hfault1 Hfault2 Hall1 Hall2 Hsame.
  rewrite !b64_analyzePeakTime_unfold, !b64_peakTimeOf_closed by done.
  do 2 f_equal. apply list_fmap_ext. intros _ b Hb%list_elem_of_lookup_2.
  f_equal. unfold Binary64.blockStat. by rewrite (Hsame b Hb).
Qed.

Lemma analyzePeakTime_order_across_blocks_irrelevant_witness :
  Binary64.analyzePeakTime (quiet mergeSortStage nearTie) "u"
  = Binary64.analyzePeakTime (quiet mergeSortStage nearTieShuffled) "u".
Proof.
  apply (analyzePeakTime_order_across_blocks_irrelevant
           (quiet mergeSortStage nearTie)
           (quiet mergeSortStage nearTieShuffled) "u").
  - reflexivity.
  - reflexivity.
  - repeat constructor; discriminate.
  - repeat constructor; discriminate.
  - intros b. unfold blockLabels. rewrite !elem_of_cons, elem_of_nil.
    intros [->|[->|[->|[->|[]]]]]; by vm_compute.
Defined.
